(** * Control-flow graph builder of the flowchart generator ([src/app.py])

    A shallow embedding of [generate_mermaid_flowchart] and
    [parse_code_to_ast] (with its nested [get_node_id], [add_node] and
    [visit]), and the properties of the graph they build. *)

From Stdlib Require Import Ascii String.
From stdpp Require Import base strings list pretty.

Set Default Proof Using "Type".
Open Scope string_scope.
Open Scope list_scope.

(** ** Exceptions *)

Inductive exn : Type :=
| SyntaxError
| ValueError
| MemoryError
| RecursionError
| KeyError
| UnicodeEncodeError.

(** What a call gives: a value, or the exception it raises. *)
Inductive result (A : Type) : Type :=
| Ok (a : A)
| Raise (e : exn).
Arguments Ok {A} a.
Arguments Raise {A} e.

(** ** The syntax tree

    [ast.parse] and [ast.unparse] belong to Python's library.  A node keeps
    what [ast.unparse(...).strip()] gives when [visit] asks for it: the
    stripped text, or the exception [ast.unparse] raises (it is recursive
    on the expression, and raises [RecursionError] on a deeply nested one).
    The text is the whole statement for [Assign], [AugAssign], [Expr] and
    [Return], the test for [If] and [While], the target for [For].  For an
    [Expr], [callee] is [Some f] exactly when [node.value] is an [ast.Call]
    whose [func] is the [ast.Name] [f].  [Other] is any node kind [visit]
    has no branch for, statement or expression, with its
    [ast.iter_child_nodes] in order. *)
#[warnings="-register-all"]
Inductive node : Type :=
| Assign (src : result string)
| AugAssign (src : result string)
| Expr (src : result string) (callee : option string)
| Return (src : result string)
| If (test : result string) (body orelse : list node)
| For (target : result string) (body orelse : list node)
| While (test : result string) (body orelse : list node)
| Break
| Continue
| FunctionDef (name : string) (args : list string) (body : list node)
| Other (children : list node).

(** [ast.iter_child_nodes] for the kinds that reach the last lines of
    [visit].  A [FunctionDef] yields its [arguments] node, then its body;
    its decorators and annotations are expression nodes, which hold no
    statement. *)
Definition iter_child_nodes (n : node) : list node :=
  match n with
  | FunctionDef _ args body => Other (map (fun _ => Other []) args) :: body
  | Other children => children
  | _ => []
  end.

Definition is_FunctionDef (n : node) : bool :=
  match n with FunctionDef _ _ _ => true | _ => false end.

(** ** Python values the builder passes around *)

(** A node id, or [None]. *)
Abbreviation pyid := (option string).

(** Truth value of an id in [if x:]: [None] and the empty string are false. *)
Definition truthy (x : pyid) : bool :=
  match x with
  | Some (String _ _) => true
  | _ => false
  end.

(** Insertion-ordered [dict] with string keys: assigning to a key that is
    present keeps its position, a new key goes last. *)
Fixpoint dict_set {V : Type} (k : string) (v : V) (d : list (string * V))
  : list (string * V) :=
  match d with
  | [] => [(k, v)]
  | (k', v') :: d' =>
      if String.eqb k' k then (k', v) :: d' else (k', v') :: dict_set k v d'
  end.

Fixpoint dict_get {V : Type} (k : string) (d : list (string * V)) : option V :=
  match d with
  | [] => None
  | (k', v') :: d' => if String.eqb k' k then Some v' else dict_get k d'
  end.

Record node_data : Type := NodeData {
  label : string;
  shape : string * string
}.

(** An edge is the tuple [(source, target, label)]. *)
Abbreviation edge := (pyid * pyid * string)%type.

Record function_record : Type := FunctionRecord {
  fn_body : list node;
  fn_args : list string
}.

(** The variables [parse_code_to_ast] shares with its nested functions
    ([functions] is filled before the first [visit] and only read later). *)
Record state : Type := State {
  nodes : list (string * node_data);
  edges : list edge;
  node_counter : nat
}.

(** ** The builder's monad *)

Definition M (A : Type) : Type := state -> result (A * state).

Definition ret {A : Type} (a : A) : M A := fun st => Ok (a, st).

Definition bind {A B : Type} (m : M A) (k : A -> M B) : M B :=
  fun st =>
    match m st with
    | Ok (a, st') => k a st'
    | Raise e => Raise e
    end.

Definition raise {A : Type} (e : exn) : M A := fun _ => Raise e.

Declare Scope builder_scope.
Delimit Scope builder_scope with builder.
Notation "x <- c1 ;; c2" := (bind c1 (fun x => c2))
  (at level 100, c1 at next level, right associativity) : builder_scope.
Notation "c1 ;;; c2" := (bind c1 (fun _ => c2))
  (at level 100, right associativity) : builder_scope.
Open Scope builder_scope.

(** ** [get_node_id], [add_node], [edges.append] *)

Definition node_name (k : nat) : string := "N" +:+ pretty k.

Definition get_node_id : M string :=
  fun st =>
    Ok (node_name (node_counter st),
        State (nodes st) (edges st) (S (node_counter st))).

Definition add_node (lbl : string) (shp : string * string) : M string :=
  node_id <- get_node_id ;;
  fun st =>
    Ok (node_id,
        State (dict_set node_id (NodeData lbl shp) (nodes st))
              (edges st) (node_counter st)).

Definition edges_append (e : edge) : M unit :=
  fun st => Ok (tt, State (nodes st) (edges st ++ [e]) (node_counter st)).

(** [ast.unparse(...).strip()] on the part of the node [visit] asks for:
    the text, or the exception, with [nodes] and [edges] as they are. *)
Definition ast_unparse (unparsed : result string) : M string :=
  match unparsed with
  | Ok text => ret text
  | Raise e => raise e
  end.

(** ** The loops over statements

    [for child in body: if cur: cur = visit(child, cur, ...)] *)
Fixpoint for_guarded (v : node -> pyid -> M pyid) (body : list node)
  (cur : pyid) : M pyid :=
  match body with
  | [] => ret cur
  | child :: rest =>
      cur' <- (if truthy cur then v child cur else ret cur) ;;
      for_guarded v rest cur'
  end.

(** [for func_stmt in body: last = visit(func_stmt, last, ...)], the loop
    of the inlined call, which has no test on [last]. *)
Fixpoint for_inlined (v : node -> pyid -> M pyid) (body : list node)
  (cur : pyid) : M pyid :=
  match body with
  | [] => ret cur
  | func_stmt :: rest =>
      cur' <- v func_stmt cur ;;
      for_inlined v rest cur'
  end.

(** ** [visit]

    [depth] is the number of nested calls of [visit] the interpreter still
    allows; Python raises [RecursionError] beyond its recursion limit, which
    is how the inlining of a recursive function ends.  Each branch that
    labels a node asks [ast.unparse] first, and raises what it raises. *)
Section Visit.

Variable functions : list (string * function_record).

Definition is_io_name (func_id : string) : bool :=
  String.eqb func_id "input" || String.eqb func_id "print".

Fixpoint visit (depth : nat) (n : node) (parent_id : pyid)
  (loop_start_id loop_exit_id : pyid) {struct depth} : M pyid :=
  match depth with
  | O => raise RecursionError
  | S depth' =>
    let plain (lbl : string) (shp : string * string) : M pyid :=
      current_id <- add_node lbl shp ;;
      edges_append (parent_id, Some current_id, "") ;;;
      ret (Some current_id) in
    match n with
    | Assign src | AugAssign src =>
        lbl <- ast_unparse src ;;
        plain lbl ("[/", "/]")
    | Expr src callee =>
        lbl <- ast_unparse src ;;
        match callee with
        | Some func_id =>
            if is_io_name func_id then plain lbl ("[/", "/]")
            else
              match dict_get func_id functions with
              | Some fn =>
                  current_id <- add_node lbl ("[", "]") ;;
                  edges_append (parent_id, Some current_id, "") ;;;
                  for_inlined
                    (fun func_stmt last_node_in_func =>
                       visit depth' func_stmt last_node_in_func
                             loop_start_id loop_exit_id)
                    (fn_body fn) (Some current_id)
              | None => plain lbl ("[", "]")
              end
        | None => plain lbl ("[", "]")
        end
    | Return src =>
        lbl <- ast_unparse src ;;
        current_id <- add_node lbl ("(", ")") ;;
        edges_append (parent_id, Some current_id, "") ;;;
        ret None
    | If test body orelse =>
        test_text <- ast_unparse test ;;
        cond_id <- add_node ("if " +:+ test_text) ("{", "}") ;;
        edges_append (parent_id, Some cond_id, "") ;;;
        true_end <- for_guarded
                      (fun child cur =>
                         visit depth' child cur loop_start_id loop_exit_id)
                      body (Some cond_id) ;;
        false_end <- for_guarded
                       (fun child cur =>
                          visit depth' child cur loop_start_id loop_exit_id)
                       orelse (Some cond_id) ;;
        if negb (truthy true_end) && negb (truthy false_end) then ret None
        else
          merge_id <- add_node " " ("((", "))") ;;
          (if truthy true_end
           then edges_append (true_end, Some merge_id, "Yes") else ret tt) ;;;
          (if truthy false_end
           then edges_append (false_end, Some merge_id, "No") else ret tt) ;;;
          (match body with
           | [] => edges_append (Some cond_id, Some merge_id, "Yes")
           | _ => ret tt
           end) ;;;
          (match orelse with
           | [] => edges_append (Some cond_id, Some merge_id, "No")
           | _ => ret tt
           end) ;;;
          ret (Some merge_id)
    | For cond body _ | While cond body _ =>
        let loop_type :=
          match n with For _ _ _ => "For" | _ => "While" end in
        condition <- ast_unparse cond ;;
        loop_id <- add_node (loop_type +:+ " " +:+ condition) ("{{", "}}") ;;
        edges_append (parent_id, Some loop_id, "") ;;;
        after_loop_id <- add_node " " ("((", "))") ;;
        body_end <- for_guarded
                      (fun child cur =>
                         visit depth' child cur
                               (Some loop_id) (Some after_loop_id))
                      body (Some loop_id) ;;
        (if truthy body_end
         then edges_append (body_end, Some loop_id, "Loop") else ret tt) ;;;
        edges_append (Some loop_id, Some after_loop_id, "End Loop") ;;;
        ret (Some after_loop_id)
    | Break =>
        (if truthy loop_exit_id
         then edges_append (parent_id, loop_exit_id, "break") else ret tt) ;;;
        ret None
    | Continue =>
        (if truthy loop_start_id
         then edges_append (parent_id, loop_start_id, "continue")
         else ret tt) ;;;
        ret None
    | FunctionDef _ _ _ | Other _ =>
        for_guarded
          (fun child cur => visit depth' child cur loop_start_id loop_exit_id)
          (iter_child_nodes n) parent_id
    end
  end.

End Visit.

(** ** [parse_code_to_ast]

    The part after [tree = ast.parse(code)], on [tree.body]. *)

(** [for node in tree.body: if isinstance(node, ast.FunctionDef):
    functions[node.name] = {...}] *)
Fixpoint collect_functions (tree_body : list node)
  (functions : list (string * function_record))
  : list (string * function_record) :=
  match tree_body with
  | [] => functions
  | FunctionDef name args body :: rest =>
      collect_functions rest (dict_set name (FunctionRecord body args) functions)
  | _ :: rest => collect_functions rest functions
  end.

(** [[n for n in tree.body if not isinstance(n, ast.FunctionDef)]] *)
Fixpoint main_body_of (tree_body : list node) : list node :=
  match tree_body with
  | [] => []
  | n :: rest =>
      if is_FunctionDef n then main_body_of rest else n :: main_body_of rest
  end.

Definition initial_state : state := State [] [] 0.

(** Everything up to the two loops over the entry statements; the value
    is [last_node_id]. *)
Definition build_body (depth : nat) (tree_body : list node) : M pyid :=
  let functions := collect_functions tree_body [] in
  start_id <- add_node "Start" ("((", "))") ;;
  let main_body := main_body_of tree_body in
  match main_body, functions with
  | [], (first_func_name, _) :: _ =>
      func_def_id <-
        add_node ("def " +:+ first_func_name +:+ "(...)") ("[[", "]]") ;;
      edges_append (Some start_id, Some func_def_id, "") ;;;
      match dict_get first_func_name functions with
      | Some fn =>
          for_guarded
            (fun n cur => visit functions depth n cur None None)
            (fn_body fn) (Some func_def_id)
      | None => raise KeyError
      end
  | _, _ =>
      for_guarded
        (fun n cur => visit functions depth n cur None None)
        main_body (Some start_id)
  end.

Definition build (depth : nat) (tree_body : list node) : M unit :=
  last_node_id <- build_body depth tree_body ;;
  end_id <- add_node "End" ("((", "))") ;;
  (if truthy last_node_id
   then edges_append (last_node_id, Some end_id, "") else ret tt).

Definition parse_tree (depth : nat) (tree_body : list node)
  : result (list (string * node_data) * list edge) :=
  match build depth tree_body initial_state with
  | Ok (_, st) => Ok (nodes st, edges st)
  | Raise e => Raise e
  end.

(** ** [generate_mermaid_flowchart] *)

Definition LF : string := String "010"%char EmptyString.
Definition DQUOTE : Ascii.ascii := "034"%char.

(** [label.replace(DQUOTE, '&quot;')] *)
Fixpoint replace_quote (s : string) : string :=
  match s with
  | EmptyString => EmptyString
  | String c rest =>
      if Ascii.eqb c DQUOTE then "&quot;" +:+ replace_quote rest
      else String c (replace_quote rest)
  end.

Definition node_line (entry : string * node_data) : string :=
  let '(node_id, data) := entry in
  let lbl := replace_quote (label data) in
  let '(shape_start, shape_end) := shape data in
  "    " +:+ node_id +:+ shape_start +:+ String DQUOTE lbl
    +:+ String DQUOTE shape_end +:+ LF.

Definition edge_line (e : edge) : string :=
  let '(src, tgt, lbl) := e in
  match src, tgt with
  | Some (String _ _ as s), Some (String _ _ as t) =>
      match lbl with
      | EmptyString => "    " +:+ s +:+ " --> " +:+ t +:+ LF
      | _ => "    " +:+ s +:+ " -->|" +:+ lbl +:+ "| " +:+ t +:+ LF
      end
  | _, _ => ""
  end.

Definition concat_lines {A : Type} (f : A -> string) (l : list A) : string :=
  fold_left (fun acc x => acc +:+ f x) l "".

Definition render (g : list (string * node_data) * list edge) : string :=
  "graph TD" +:+ LF +:+ concat_lines node_line (fst g)
    +:+ concat_lines edge_line (snd g).

Definition fallback_document : string :=
  "graph TD" +:+ LF +:+ "    A[Error: Could not parse code]".

(** [try: ... except Exception as e: ...]; every exception of [exn] is an
    [Exception].  What the handler raises leaves the function. *)
Definition try_except {A : Type} (body : result A) (handler : exn -> result A)
  : result A :=
  match body with
  | Ok a => Ok a
  | Raise e => handler e
  end.

Section Generate.

(** [ast.parse], giving [tree.body] or raising, and the recursion limit. *)
Variable ast_parse : string -> result (list node).
Variable recursion_limit : nat.

(** The [print] of the handler, on the text made of the exception and of
    [traceback.format_exc()]: for a [SyntaxError] that text quotes the
    offending line of [code], and [print] raises [UnicodeEncodeError] when
    the standard output cannot encode it. *)
Variable print_error : string -> exn -> result unit.

Definition parse_code_to_ast (code : string)
  : result (list (string * node_data) * list edge) :=
  match ast_parse code with
  | Ok tree_body => parse_tree recursion_limit tree_body
  | Raise e => Raise e
  end.

Definition generate_mermaid_flowchart (code : string) : result string :=
  try_except
    (match parse_code_to_ast code with
     | Ok g => Ok (render g)
     | Raise e => Raise e
     end)
    (fun e =>
       match print_error code e with
       | Ok _ => Ok fallback_document
       | Raise e' => Raise e'
       end).

End Generate.

(** ** [sync_firebase_user]

    The function reads the module variable [db] and talks to Firestore.
    The values of the dictionaries, the client and its three calls are
    parameters: [document] is [db.collection('users').document(uid)],
    [doc_get] is [user_ref.get()] followed by [exists] and [to_dict()]
    ([None] for a document that does not exist), [doc_set] is
    [user_ref.set(user_data)], [print_sync_error] is the [print] of the
    handler.  Each may raise; a call that reaches the store leaves it in
    some state even when it raises. *)

Inductive outcome (E A : Type) : Type :=
| Returns (a : A)
| Raises (e : E).
Arguments Returns {E A} a.
Arguments Raises {E A} e.

Section Firestore.

Variable value : Type.
Variable value_none : value.
Variable error : Type.
Variable firestore : Type.
Variable doc_ref : Type.
Variable document : value -> outcome error doc_ref.
Variable doc_get :
  doc_ref -> firestore -> outcome error (option (list (string * value))) * firestore.
Variable doc_set :
  doc_ref -> list (string * value) -> firestore -> outcome error unit * firestore.
Variable print_sync_error : error -> outcome error unit.

(** [except Exception as e: print(...); return google_user_info] *)
Definition sync_handler (e : error)
    (google_user_info : option (list (string * value)))
  : outcome error (option (list (string * value))) :=
  match print_sync_error e with
  | Returns _ => Returns google_user_info
  | Raises e' => Raises e'
  end.

(** [d.get(k)] *)
Definition dict_get_default (k : string) (d : list (string * value)) : value :=
  match dict_get k d with
  | Some v => v
  | None => value_none
  end.

(** [db_set] tells whether [db] is a client ([True]) or [None];
    [google_user_info] is a dictionary or [None]. *)
Definition sync_firebase_user (db_set : bool)
    (google_user_info : option (list (string * value))) (store : firestore)
  : outcome error (option (list (string * value))) * firestore :=
  match db_set, google_user_info with
  | true, Some ((_ :: _) as info) =>
      match dict_get "id" info with
      | None => (Returns google_user_info, store)
      | Some uid =>
          let email := dict_get_default "email" info in
          let name := dict_get_default "name" info in
          match document uid with
          | Raises e => (Raises e, store)
          | Returns user_ref =>
              match doc_get user_ref store with
              | (Returns (Some user), store1) => (Returns (Some user), store1)
              | (Returns None, store1) =>
                  let user_data :=
                    [("name", name); ("email", email); ("uid", uid)] in
                  match doc_set user_ref user_data store1 with
                  | (Returns _, store2) => (Returns (Some user_data), store2)
                  | (Raises e, store2) =>
                      (sync_handler e google_user_info, store2)
                  end
              | (Raises e, store1) =>
                  (sync_handler e google_user_info, store1)
              end
          end
      end
  | _, _ => (Returns google_user_info, store)
  end.

End Firestore.

(** * Vocabulary of the statements *)

(** ** Well-formed states *)

(** The keys of a [dict], in insertion order. *)
Definition dict_keys {V : Type} (d : list (string * V)) : list string :=
  map fst d.

(** The keys of [nodes], in insertion order, are the ids
    [N0 .. N(node_counter - 1)]. *)
Definition wf_state (st : state) : Prop :=
  dict_keys (nodes st) = map node_name (seq 0 (node_counter st)).


(** [x] is the id of one of the first [c] nodes. *)
Definition named_below (c : nat) (x : pyid) : Prop :=
  exists k, k < c /\ x = Some (node_name k).

(** [x] is [None] or the id of one of the first [c] nodes. *)
Definition bounded (c : nat) (x : pyid) : Prop :=
  x = None \/ named_below c x.

(** An edge whose source is [None] or an existing node and whose target
    is an existing node. *)
Definition edge_ok (c : nat) (e : edge) : Prop :=
  bounded c e.1.1 /\ named_below c e.1.2.

(** The delimiters of the Start and End nodes (and of the joiners). *)
Definition sentinel_shape : string * string := ("((", "))").

(** A node that reads as the Start or the End sentinel. *)
Definition is_sentinel (d : node_data) : Prop :=
  shape d = sentinel_shape /\ (label d = "Start" \/ label d = "End").

(** [st'] is [st] with more nodes at the end of the dictionary, none of
    them reading as a sentinel, and more edges at the end of the list, all
    between existing nodes. *)
Record extends (st st' : state) : Prop := Extends {
  ext_counter : node_counter st <= node_counter st';
  ext_nodes : exists added,
    nodes st' = nodes st ++ added /\ Forall (fun kv => ~ is_sentinel kv.2) added;
  ext_edges : exists added,
    edges st' = edges st ++ added /\ Forall (edge_ok (node_counter st')) added
}.

(** A computation started in a well-formed state [st]: when it returns,
    the state is well formed, extends [st], and [Q] holds of the value and
    the new counter. *)
Definition preserves {A : Type} (m : M A) (st : state)
    (Q : A -> nat -> Prop) : Prop :=
  forall a st', m st = Ok (a, st') ->
    wf_state st' /\ extends st st' /\ Q a (node_counter st').

(** A visitor that keeps well-formed states well formed, from counter
    [c0] on. *)
Definition visitor_ok (c0 : nat) (v : node -> pyid -> M pyid) : Prop :=
  forall n p st, c0 <= node_counter st -> wf_state st ->
    bounded (node_counter st) p ->
    preserves (v n p) st (fun r c => bounded c r).

(** ** Parts of [visit] and of [parse_code_to_ast] *)

(** The sentinels. *)
Definition start_data : node_data := NodeData "Start" ("((", "))").
Definition end_data : node_data := NodeData "End" ("((", "))").

(** The state once the Start sentinel exists. *)
Definition after_start : state := State [(node_name 0, start_data)] [] 1.

(** The state once the definition node of the implicit entry point, the
    function [name], exists too. *)
Definition after_def (name : string) : state :=
  State [(node_name 0, start_data);
         (node_name 1, NodeData ("def " +:+ name +:+ "(...)") ("[[", "]]"))]
        [(Some (node_name 0), Some (node_name 1), "")]
        2.

(** [build_body] without its first [add_node]. *)
Definition entry_statements (depth : nat) (tree_body : list node) : M pyid :=
  let functions := collect_functions tree_body [] in
  match main_body_of tree_body, functions with
  | [], (first_func_name, _) :: _ =>
      func_def_id <-
        add_node ("def " +:+ first_func_name +:+ "(...)") ("[[", "]]") ;;
      edges_append (Some (node_name 0), Some func_def_id, "") ;;;
      match dict_get first_func_name functions with
      | Some fn =>
          for_guarded
            (fun n cur => visit functions depth n cur None None)
            (fn_body fn) (Some func_def_id)
      | None => raise KeyError
      end
  | _, _ =>
      for_guarded
        (fun n cur => visit functions depth n cur None None)
        (main_body_of tree_body) (Some (node_name 0))
  end.

(** The graph of a build whose entry statements end in [last], state [st]. *)
Definition finished (last : pyid) (st : state)
  : list (string * node_data) * list edge :=
  (nodes st ++ [(node_name (node_counter st), end_data)],
   if truthy last
   then edges st ++ [(last, Some (node_name (node_counter st)), "")]
   else edges st).

(** The state after [add_node(lbl, shp)] and the edge from [p] to the new
    node. *)
Definition with_node (lbl : string) (shp : string * string) (p : pyid)
    (st : state) : state :=
  State (dict_set (node_name (node_counter st)) (NodeData lbl shp) (nodes st))
        (edges st ++ [(p, Some (node_name (node_counter st)), "")])
        (S (node_counter st)).

(** The end of the [If] branch of [visit], once both branches are done. *)
Definition merge_branches (cond_id : string) (body orelse : list node)
    (true_end false_end : pyid) : M pyid :=
  if negb (truthy true_end) && negb (truthy false_end) then ret None
  else
    merge_id <- add_node " " ("((", "))") ;;
    (if truthy true_end
     then edges_append (true_end, Some merge_id, "Yes") else ret tt) ;;;
    (if truthy false_end
     then edges_append (false_end, Some merge_id, "No") else ret tt) ;;;
    (match body with
     | [] => edges_append (Some cond_id, Some merge_id, "Yes")
     | _ => ret tt
     end) ;;;
    (match orelse with
     | [] => edges_append (Some cond_id, Some merge_id, "No")
     | _ => ret tt
     end) ;;;
    ret (Some merge_id).

(** [For] and [While] nodes, their header label and their body. *)
Definition is_loop (loop : node) : bool :=
  match loop with For _ _ _ | While _ _ _ => true | _ => false end.

Definition loop_label (loop : node) : result string :=
  match loop with
  | For (Ok target) _ _ => Ok ("For " +:+ target)
  | While (Ok test) _ _ => Ok ("While " +:+ test)
  | For (Raise e) _ _ | While (Raise e) _ _ => Raise e
  | _ => Ok ""
  end.

Definition loop_body (loop : node) : list node :=
  match loop with For _ body _ | While _ body _ => body | _ => [] end.

(** A [For] or a [While] node. *)
Definition loop_node (is_for : bool) (head : string) (body orelse : list node)
  : node :=
  if is_for then For (Ok head) body orelse else While (Ok head) body orelse.

(** The state in which a loop body is visited: header node, edge from the
    predecessor, exit node. *)
Definition loop_entered (lbl : string) (p : pyid) (st : state) : state :=
  State (dict_set (node_name (S (node_counter st)))
           (NodeData " " ("((", "))"))
           (dict_set (node_name (node_counter st))
              (NodeData lbl ("{{", "}}")) (nodes st)))
        (edges st ++ [(p, Some (node_name (node_counter st)), "")])
        (S (S (node_counter st))).

(** The state a loop leaves: the back edge when the body falls through,
    then the edge to the exit. *)
Definition loop_closed (header exit : string) (body_end : pyid) (st : state)
  : state :=
  State (nodes st)
        (edges st ++
         (if truthy body_end then [(body_end, Some header, "Loop")] else []) ++
         [(Some header, Some exit, "End Loop")])
        (node_counter st).

(** Whether [sub] occurs in [s]. *)
Fixpoint occurs (sub s : string) : bool :=
  String.prefix sub s ||
  match s with
  | EmptyString => false
  | String _ rest => occurs sub rest
  end.

(** ** Statements reached under a loop context *)

(** The two loops of [visit] over a statement list: the guarded one, and
    the one of an inlined body. *)
Definition run_sequence (guarded : bool) (v : node -> pyid -> M pyid)
  : list node -> pyid -> M pyid :=
  if guarded then for_guarded v else for_inlined v.

Definition is_jump (n : node) : bool :=
  match n with Break | Continue => true | _ => false end.

(** Where a [break] or a [continue] goes under the context
    [(loop_start_id, loop_exit_id)], and the edge it appends. *)
Definition jump_target (ls le : pyid) (jump : node) : pyid :=
  match jump with Break => le | _ => ls end.

Definition jump_edge (ls le : pyid) (jump : node) (src : pyid) : edge :=
  match jump with
  | Break => (src, le, "break")
  | _ => (src, ls, "continue")
  end.

Definition is_generic (n : node) : bool :=
  match n with FunctionDef _ _ _ | Other _ => true | _ => false end.

(** [reaches functions ls le jump guarded depth stmts cur st src st1]: the
    loop over [stmts], started at [cur] in state [st], whose statements
    [visit] takes with [depth] nested calls left and the loop context
    [(ls, le)], comes to visit an occurrence of the statement [jump] with
    predecessor [src] in state [st1], without entering a loop on the way.
    The occurrence is in the list itself, in a branch of a conditional,
    among the children of a generic node, or in the body of a function
    whose call is inlined, to any depth; what precedes it on the way is
    run as [visit] runs it. *)
Inductive reaches (functions : list (string * function_record))
    (ls le : pyid) (jump : node)
  : bool -> nat -> list node -> pyid -> state -> pyid -> state -> Prop :=
| reaches_here (guarded : bool) (depth : nat) (pre post : list node)
    (cur : pyid) (st : state) (src : pyid) (st1 : state) :
    run_sequence guarded
      (fun c cur => visit functions (S depth) c cur ls le) pre cur st
      = Ok (src, st1) ->
    (guarded = true -> truthy src = true) ->
    reaches functions ls le jump guarded (S depth) (pre ++ jump :: post)
      cur st src st1
| reaches_if_true (guarded : bool) (depth : nat) (pre post : list node)
    (test : string) (body orelse : list node)
    (cur : pyid) (st : state) (parent : pyid) (st1 : state)
    (src : pyid) (st2 : state) :
    run_sequence guarded
      (fun c cur => visit functions (S depth) c cur ls le) pre cur st
      = Ok (parent, st1) ->
    (guarded = true -> truthy parent = true) ->
    reaches functions ls le jump true depth body
      (Some (node_name (node_counter st1)))
      (with_node ("if " +:+ test) ("{", "}") parent st1) src st2 ->
    reaches functions ls le jump guarded (S depth)
      (pre ++ If (Ok test) body orelse :: post) cur st src st2
| reaches_if_false (guarded : bool) (depth : nat) (pre post : list node)
    (test : string) (body orelse : list node)
    (cur : pyid) (st : state) (parent : pyid) (st1 : state)
    (true_end : pyid) (st2 : state) (src : pyid) (st3 : state) :
    run_sequence guarded
      (fun c cur => visit functions (S depth) c cur ls le) pre cur st
      = Ok (parent, st1) ->
    (guarded = true -> truthy parent = true) ->
    for_guarded (fun c cur => visit functions depth c cur ls le) body
      (Some (node_name (node_counter st1)))
      (with_node ("if " +:+ test) ("{", "}") parent st1)
      = Ok (true_end, st2) ->
    reaches functions ls le jump true depth orelse
      (Some (node_name (node_counter st1))) st2 src st3 ->
    reaches functions ls le jump guarded (S depth)
      (pre ++ If (Ok test) body orelse :: post) cur st src st3
| reaches_children (guarded : bool) (depth : nat) (pre post : list node)
    (n : node) (cur : pyid) (st : state) (parent : pyid) (st1 : state)
    (src : pyid) (st2 : state) :
    is_generic n = true ->
    run_sequence guarded
      (fun c cur => visit functions (S depth) c cur ls le) pre cur st
      = Ok (parent, st1) ->
    (guarded = true -> truthy parent = true) ->
    reaches functions ls le jump true depth (iter_child_nodes n) parent st1
      src st2 ->
    reaches functions ls le jump guarded (S depth) (pre ++ n :: post)
      cur st src st2
| reaches_inlined (guarded : bool) (depth : nat) (pre post : list node)
    (lbl func_id : string) (fn : function_record)
    (cur : pyid) (st : state) (parent : pyid) (st1 : state)
    (src : pyid) (st2 : state) :
    is_io_name func_id = false ->
    dict_get func_id functions = Some fn ->
    run_sequence guarded
      (fun c cur => visit functions (S depth) c cur ls le) pre cur st
      = Ok (parent, st1) ->
    (guarded = true -> truthy parent = true) ->
    reaches functions ls le jump false depth (fn_body fn)
      (Some (node_name (node_counter st1)))
      (with_node lbl ("[", "]") parent st1) src st2 ->
    reaches functions ls le jump guarded (S depth)
      (pre ++ Expr (Ok lbl) (Some func_id) :: post) cur st src st2.

(** The edges of [st] start with [es]. *)
Definition edges_from (es : list edge) (st : state) : Prop :=
  exists more, edges st = es ++ more.

(** ** Programs and states of the examples *)

(** [if x > 0: y = 1 / else: y = 2], as [ast.parse] gives it. *)
Definition if_else_program : list node :=
  [If (Ok "x > 0") [Assign (Ok "y = 1")] [Assign (Ok "y = 2")]].

(** The graph of [if_else_program]. *)
Definition if_else_nodes : list (string * node_data) :=
  [("N0", start_data);
   ("N1", NodeData "if x > 0" ("{", "}"));
   ("N2", NodeData "y = 1" ("[/", "/]"));
   ("N3", NodeData "y = 2" ("[/", "/]"));
   ("N4", NodeData " " ("((", "))"));
   ("N5", end_data)].

Definition if_else_edges : list edge :=
  [(Some "N0", Some "N1", "");
   (Some "N1", Some "N2", "");
   (Some "N1", Some "N3", "");
   (Some "N2", Some "N4", "Yes");
   (Some "N3", Some "N4", "No");
   (Some "N4", Some "N5", "")].

(** [if x > 0: y = 1], as [ast.parse] gives it. *)
Definition if_only_program : list node :=
  [If (Ok "x > 0") [Assign (Ok "y = 1")] []].

(** Inlining a function that calls itself exhausts any recursion limit:
    [def f(): f()] followed by the call [f()]. *)
Definition self_recursive_program : list node :=
  [FunctionDef "f" [] [Expr (Ok "f()") (Some "f")]; Expr (Ok "f()") (Some "f")].

(** After Start, [if c], [return 1]. *)
Definition state_if_true : state :=
  State [("N0", start_data);
         ("N1", NodeData "if c" ("{", "}"));
         ("N2", NodeData "return 1" ("(", ")"))]
        [(Some "N0", Some "N1", ""); (Some "N1", Some "N2", "")]
        3.

(** After Start, [if c], [return 1], [return 2]. *)
Definition state_if_both : state :=
  State [("N0", start_data);
         ("N1", NodeData "if c" ("{", "}"));
         ("N2", NodeData "return 1" ("(", ")"));
         ("N3", NodeData "return 2" ("(", ")"))]
        [(Some "N0", Some "N1", ""); (Some "N1", Some "N2", "");
         (Some "N1", Some "N3", "")]
        4.

(** Start, [While x < 10] and its exit: the state in which the body of the
    loop is visited. *)
Definition state_in_loop : state :=
  State [("N0", start_data);
         ("N1", NodeData "While x < 10" ("{{", "}}"));
         ("N2", NodeData " " ("((", "))"))]
        [(Some "N0", Some "N1", "")]
        3.

(** After Start and [return x]. *)
Definition state_returned : state :=
  State [("N0", start_data); ("N1", NodeData "return x" ("(", ")"))]
        [(Some "N0", Some "N1", "")]
        2.

(** The code made of [x = ] and the rightwards arrow U+2192, which is the
    bytes 226, 134 and 146 in UTF-8; Python rejects the arrow as an
    invalid character. *)
Definition arrow_code : string :=
  "x = " +:+
  String "226"%char (String "134"%char (String "146"%char EmptyString)).

Fixpoint ascii_only (s : string) : bool :=
  match s with
  | EmptyString => true
  | String c rest => Nat.ltb (Ascii.nat_of_ascii c) 128 && ascii_only rest
  end.

(** A [print] of the handler whose standard output encodes ASCII only: the
    diagnostic of a [SyntaxError] quotes the offending line of the code. *)
Definition print_to_ascii_stdout (code : string) (e : exn) : result unit :=
  match e with
  | SyntaxError => if ascii_only code then Ok tt else Raise UnicodeEncodeError
  | _ => Ok tt
  end.

(** * Vocabulary of the further properties *)

(** ** The builder *)

(** The labels [visit] and [parse_code_to_ast] give to edges. *)
Definition edge_labels : list string :=
  [""; "Yes"; "No"; "Loop"; "End Loop"; "break"; "continue"].

(** The delimiter pairs [visit] and [parse_code_to_ast] give to nodes. *)
Definition shape_catalog : list (string * string) :=
  [("[/", "/]"); ("[", "]"); ("(", ")"); ("{", "}"); ("((", "))");
   ("{{", "}}"); ("[[", "]]")].

(** Every node has a shape of the catalog, every edge a label of the
    vocabulary. *)
Definition in_vocabulary (st : state) : Prop :=
  Forall (fun entry => shape entry.2 ∈ shape_catalog) (nodes st) /\
  Forall (fun e : edge => e.2 ∈ edge_labels) (edges st).

(** Every edge has a source the serializer accepts. *)
Definition has_sources (st : state) : Prop :=
  Forall (fun e : edge => truthy e.1.1 = true) (edges st).

(** [m], started in a state where [P] holds, returns only values and
    states where [Q] holds. *)
Definition hoare {A : Type} (P : state -> Prop) (m : M A)
    (Q : A -> state -> Prop) : Prop :=
  forall st a st', P st -> m st = Ok (a, st') -> Q a st'.

(** [m] keeps the invariant [I]. *)
Definition keeps {A : Type} (I : state -> Prop) (m : M A) : Prop :=
  hoare I m (fun _ => I).

(** A subtree without any node [visit] has a branch for, and without
    function definition: the expression trees, [pass], and the like. *)
Fixpoint statement_free (n : node) : bool :=
  match n with
  | Other children => forallb statement_free children
  | _ => false
  end.

(** The number of nested generic nodes. *)
Fixpoint height (n : node) : nat :=
  match n with
  | Other children => S (foldr (fun c h => Nat.max (height c) h) 0 children)
  | _ => 0
  end.

(** Statements that make one node and fall through, in a program without
    function definition: the assignments and expression statements whose
    text [ast.unparse] returns. *)
Definition is_simple (n : node) : bool :=
  match n with
  | Assign (Ok _) | AugAssign (Ok _) | Expr (Ok _) _ => true
  | _ => false
  end.

Definition simple_data (n : node) : node_data :=
  match n with
  | Assign (Ok lbl) | AugAssign (Ok lbl) => NodeData lbl ("[/", "/]")
  | Expr (Ok lbl) (Some func_id) =>
      NodeData lbl (if is_io_name func_id then ("[/", "/]") else ("[", "]"))
  | Expr (Ok lbl) None => NodeData lbl ("[", "]")
  | _ => NodeData "" ("", "")
  end.

(** ** The function table *)

(** The names of the top-level function definitions, in source order. *)
Fixpoint def_names (tree_body : list node) : list string :=
  match tree_body with
  | [] => []
  | FunctionDef name _ _ :: rest => name :: def_names rest
  | _ :: rest => def_names rest
  end.

(** The last top-level definition of [name], if any. *)
Fixpoint last_def (name : string) (tree_body : list node)
  : option function_record :=
  match tree_body with
  | [] => None
  | n :: rest =>
      match last_def name rest with
      | Some fn => Some fn
      | None =>
          match n with
          | FunctionDef name' args body =>
              if String.eqb name' name then Some (FunctionRecord body args)
              else None
          | _ => None
          end
      end
  end.

(** ** The serializer *)

Fixpoint count_char (c : Ascii.ascii) (s : string) : nat :=
  match s with
  | EmptyString => 0
  | String c' rest => (if Ascii.eqb c' c then 1 else 0) + count_char c rest
  end.

(** Whatever [m] returns, [m'] returns too. *)
Definition refines {A : Type} (m m' : M A) : Prop :=
  forall st r, m st = Ok r -> m' st = Ok r.

(** The unlabelled edges from [cur] through the [len] nodes numbered from
    [c]. *)
Definition chain_edges (cur : pyid) (c len : nat) : list edge :=
  match len with
  | 0 => []
  | S l =>
      (cur, Some (node_name c), "") ::
      map (fun i => (Some (node_name i), Some (node_name (S i)), ""))
          (seq c l)
  end.




(** At least one node exists and no edge ends at the first one. *)
Definition off_start (st : state) : Prop :=
  1 <= node_counter st /\
  Forall (fun e : edge => e.1.2 <> Some (node_name 0)) (edges st).

(** * Properties *)

Arguments node_name : simpl never.

(** ** Node ids *)

Lemma node_name_cons (k : nat) : node_name k = String "N" (pretty k).
Proof. reflexivity. Qed.

Lemma node_name_truthy (k : nat) : truthy (Some (node_name k)) = true.
Proof. reflexivity. Qed.

Lemma node_name_inj (j k : nat) : node_name j = node_name k -> j = k.
Proof.
  rewrite !node_name_cons. intros H. injection H as H.
  by apply (inj pretty) in H.
Qed.

Lemma dict_set_fresh {V : Type} (k : string) (v : V) (d : list (string * V)) :
  k ∉ (dict_keys d) -> dict_set k v d = d ++ [(k, v)].
Proof.
  induction d as [|[k' v'] d IH]; simpl; intros Hk; [done|].
  apply not_elem_of_cons in Hk as [Hne Hk].
  destruct (String.eqb_spec k' k) as [->|_]; [done|].
  by rewrite IH.
Qed.

Lemma node_name_fresh (c : nat) : node_name c ∉ (map node_name (seq 0 c)).
Proof.
  intros Hin. apply list_elem_of_fmap in Hin as (j & Heq & Hj).
  apply node_name_inj in Heq as <-.
  apply elem_of_seq in Hj. lia.
Qed.

Lemma add_node_eq (lbl : string) (shp : string * string) (st : state) :
  add_node lbl shp st =
  Ok (node_name (node_counter st),
      State (dict_set (node_name (node_counter st)) (NodeData lbl shp) (nodes st))
            (edges st) (S (node_counter st))).
Proof. reflexivity. Qed.

Lemma add_node_wf (lbl : string) (shp : string * string) (st : state) :
  wf_state st ->
  add_node lbl shp st =
  Ok (node_name (node_counter st),
      State (nodes st ++ [(node_name (node_counter st), NodeData lbl shp)])
            (edges st) (S (node_counter st))).
Proof.
  intros Hwf. rewrite add_node_eq, dict_set_fresh; [done|].
  rewrite Hwf. apply node_name_fresh.
Qed.


Lemma wf_state_snoc (ns : list (string * node_data)) (es es' : list edge)
    (c : nat) (d : node_data) :
  wf_state (State ns es c) ->
  wf_state (State (ns ++ [(node_name c, d)]) es' (S c)).
Proof.
  unfold wf_state, dict_keys; cbn [nodes node_counter]. intros H.
  by rewrite map_app, H, seq_S, map_app.
Qed.

Lemma wf_state_edges (ns : list (string * node_data)) (es es' : list edge)
    (c : nat) :
  wf_state (State ns es c) -> wf_state (State ns es' c).
Proof. done. Qed.

(** ** The dictionaries *)

Lemma dict_get_set_eq {V : Type} (k : string) (v : V) (d : list (string * V)) :
  dict_get k (dict_set k v d) = Some v.
Proof.
  induction d as [|[k' v'] d IH]; simpl.
  - by rewrite String.eqb_refl.
  - destruct (String.eqb k' k) eqn:Hk; simpl; by rewrite Hk.
Qed.

Lemma dict_get_set_ne {V : Type} (k k0 : string) (v : V)
    (d : list (string * V)) :
  k <> k0 -> dict_get k0 (dict_set k v d) = dict_get k0 d.
Proof.
  intros Hne. induction d as [|[k' v'] d IH]; simpl.
  - by apply String.eqb_neq in Hne as ->.
  - destruct (String.eqb_spec k' k) as [->|Hk]; simpl.
    + by apply String.eqb_neq in Hne as ->.
    + by rewrite IH.
Qed.

Lemma dict_get_Some_keys {V : Type} (k : string) (d : list (string * V)) :
  k ∈ dict_keys d <-> is_Some (dict_get k d).
Proof.
  induction d as [|[k' v'] d IH]; simpl.
  - split; [by intros ?%elem_of_nil|by intros [? [=]]].
  - destruct (String.eqb_spec k' k) as [->|Hk].
    + split; [by eauto|intros _; apply elem_of_cons; by left].
    + rewrite <- IH. unfold dict_keys; simpl. rewrite elem_of_cons.
      split; [by intros [->|?]|by right].
Qed.

Lemma dict_keys_set {V : Type} (k : string) (v : V) (d : list (string * V)) :
  dict_keys (dict_set k v d) =
  if bool_decide (k ∈ dict_keys d) then dict_keys d else dict_keys d ++ [k].
Proof.
  induction d as [|[k' v'] d IH]; simpl; [done|].
  destruct (String.eqb_spec k' k) as [->|Hk]; simpl.
  - rewrite bool_decide_true; [done|apply elem_of_cons; by left].
  - unfold dict_keys in *; simpl. rewrite IH.
    destruct (bool_decide (k ∈ map fst d)) eqn:Hin.
    + apply bool_decide_eq_true in Hin.
      rewrite bool_decide_true; [done|apply elem_of_cons; by right].
    + apply bool_decide_eq_false in Hin.
      rewrite bool_decide_false; [done|].
      rewrite elem_of_cons. by intros [->|?].
Qed.

(** ** Running the monad *)

Lemma bind_Ok {A B : Type} (m : M A) (k : A -> M B) (st st' : state) (b : B) :
  bind m k st = Ok (b, st') <->
  exists a st1, m st = Ok (a, st1) /\ k a st1 = Ok (b, st').
Proof.
  unfold bind. split.
  - destruct (m st) as [[a st1]|e]; [|done]. intros H. by exists a, st1.
  - intros (a & st1 & -> & H). done.
Qed.

Lemma ret_Ok {A : Type} (a b : A) (st st' : state) :
  ret a st = Ok (b, st') <-> a = b /\ st = st'.
Proof. unfold ret. split; [by intros [= -> ->]|by intros [-> ->]]. Qed.

Lemma for_guarded_falsy (v : node -> pyid -> M pyid) (body : list node)
    (cur : pyid) (st : state) :
  truthy cur = false -> for_guarded v body cur st = Ok (cur, st).
Proof.
  intros Hcur. induction body as [|child rest IH]; simpl; [done|].
  unfold bind. rewrite Hcur. simpl. apply IH.
Qed.

Lemma for_guarded_app (v : node -> pyid -> M pyid) (pre post : list node)
    (cur : pyid) (st : state) :
  for_guarded v (pre ++ post) cur st =
  bind (for_guarded v pre cur) (for_guarded v post) st.
Proof.
  revert cur st. induction pre as [|child rest IH]; intros cur st; simpl.
  - reflexivity.
  - unfold bind at 1 2 3.
    destruct ((if truthy cur then v child cur else ret cur) st)
      as [[cur' st1]|e]; [|done].
    apply IH.
Qed.

Lemma for_inlined_app (v : node -> pyid -> M pyid) (pre post : list node)
    (cur : pyid) (st : state) :
  for_inlined v (pre ++ post) cur st =
  bind (for_inlined v pre cur) (for_inlined v post) st.
Proof.
  revert cur st. induction pre as [|child rest IH]; intros cur st; simpl.
  - reflexivity.
  - unfold bind at 1 2 3.
    destruct (v child cur st) as [[cur' st1]|e]; [|done].
    apply IH.
Qed.

(** ** Hoare-style rules *)

Lemma hoare_ret {A : Type} (P : state -> Prop) (a : A)
    (Q : A -> state -> Prop) :
  (forall st, P st -> Q a st) -> hoare P (ret a) Q.
Proof. intros HQ st b st' HP [<- <-]%ret_Ok. by apply HQ. Qed.

Lemma hoare_bind {A B : Type} (P : state -> Prop) (m : M A) (k : A -> M B)
    (R : A -> state -> Prop) (Q : B -> state -> Prop) :
  hoare P m R -> (forall a, hoare (R a) (k a) Q) -> hoare P (bind m k) Q.
Proof.
  intros Hm Hk st b st' HP (a & st1 & H1 & H2)%bind_Ok.
  eapply Hk; [|exact H2]. by eapply Hm.
Qed.

Lemma hoare_raise {A : Type} (P : state -> Prop) (e : exn)
    (Q : A -> state -> Prop) :
  hoare P (raise e) Q.
Proof. intros st a st' _ Hraise. discriminate Hraise. Qed.

Lemma keeps_ret {A : Type} (I : state -> Prop) (a : A) : keeps I (ret a).
Proof. by apply hoare_ret. Qed.

Lemma keeps_bind {A B : Type} (I : state -> Prop) (m : M A) (k : A -> M B) :
  keeps I m -> (forall a, keeps I (k a)) -> keeps I (bind m k).
Proof. intros Hm Hk. by eapply hoare_bind. Qed.

Lemma keeps_for_guarded (I : state -> Prop) (v : node -> pyid -> M pyid)
    (body : list node) (cur : pyid) :
  (forall n p, truthy p = true -> keeps I (v n p)) ->
  keeps I (for_guarded v body cur).
Proof.
  intros Hv. revert cur. induction body as [|child rest IH]; intros cur; simpl.
  - apply keeps_ret.
  - apply keeps_bind; [|exact IH].
    destruct (truthy cur) eqn:Hcur; [by apply Hv|apply keeps_ret].
Qed.

Lemma keeps_for_inlined (I : state -> Prop) (v : node -> pyid -> M pyid)
    (body : list node) (cur : pyid) :
  (forall n p, keeps I (v n p)) -> keeps I (for_inlined v body cur).
Proof.
  intros Hv. revert cur. induction body as [|child rest IH]; intros cur; simpl.
  - apply keeps_ret.
  - by apply keeps_bind.
Qed.

Lemma keeps_unparse (I : state -> Prop) (src : result string) :
  keeps I (ast_unparse src).
Proof. destruct src; [apply keeps_ret|apply hoare_raise]. Qed.

Ltac keeps_steps Hadd Hedge IH :=
  repeat first
    [ apply keeps_ret
    | apply keeps_unparse
    | apply IH
    | apply Hadd
    | apply Hedge
    | apply keeps_for_guarded; intros; apply IH
    | apply keeps_for_inlined; intros; apply IH
    | apply keeps_bind; [|intros ?]
    | match goal with
      | |- keeps _ (if ?b then _ else _) => destruct b
      | |- keeps _ (match ?x with _ => _ end) => destruct x
      end ].

(** What every [add_node] and every [edges.append] keeps, every visit
    keeps. *)
Lemma keeps_visit (functions : list (string * function_record))
    (I : state -> Prop) :
  (forall lbl shp, keeps I (add_node lbl shp)) ->
  (forall e, keeps I (edges_append e)) ->
  forall depth n p ls le, keeps I (visit functions depth n p ls le).
Proof.
  intros Hadd Hedge depth.
  induction depth as [|depth IH]; intros n p ls le.
  { apply hoare_raise. }
  destruct n; simpl; keeps_steps Hadd Hedge IH.
Qed.

Lemma keeps_merge_branches (I : state -> Prop) (cond_id : string)
    (body orelse : list node) (true_end false_end : pyid) :
  (forall lbl shp, keeps I (add_node lbl shp)) ->
  (forall e, keeps I (edges_append e)) ->
  keeps I (merge_branches cond_id body orelse true_end false_end).
Proof.
  intros Hadd Hedge. unfold merge_branches.
  keeps_steps Hadd Hedge Hadd.
Qed.

(** ** What a visit may do to the graph *)

Lemma named_below_mono (c c' : nat) (x : pyid) :
  c <= c' -> named_below c x -> named_below c' x.
Proof. intros Hle (k & Hk & ->). exists k. split; [lia|done]. Qed.

Lemma bounded_mono (c c' : nat) (x : pyid) :
  c <= c' -> bounded c x -> bounded c' x.
Proof. intros Hle [->|H]; [by left|right; eauto using named_below_mono]. Qed.

Lemma edge_ok_mono (c c' : nat) (e : edge) :
  c <= c' -> edge_ok c e -> edge_ok c' e.
Proof.
  intros Hle [Hs Ht]. split; eauto using bounded_mono, named_below_mono.
Qed.

Lemma bounded_truthy (c : nat) (x : pyid) :
  bounded c x -> truthy x = true -> named_below c x.
Proof. intros [->|H] Ht; [done|done]. Qed.

Lemma named_below_fresh (c : nat) : named_below (S c) (Some (node_name c)).
Proof. exists c. split; [lia|done]. Qed.

Lemma extends_refl (st : state) : extends st st.
Proof.
  split; [done| |]; exists []; by rewrite app_nil_r.
Qed.

Lemma extends_trans (st1 st2 st3 : state) :
  extends st1 st2 -> extends st2 st3 -> extends st1 st3.
Proof.
  intros [Hc1 (n1 & Hn1 & Hp1) (e1 & He1 & Hq1)]
         [Hc2 (n2 & Hn2 & Hp2) (e2 & He2 & Hq2)].
  split; [lia| |].
  - exists (n1 ++ n2). rewrite Hn2, Hn1, <- app_assoc. split; [done|].
    by apply Forall_app.
  - exists (e1 ++ e2). rewrite He2, He1, <- app_assoc. split; [done|].
    apply Forall_app. split; [|done].
    eapply Forall_impl; [exact Hq1|]. intros e. by apply edge_ok_mono.
Qed.

Lemma add_node_extends (lbl : string) (shp : string * string)
    (st st' : state) (id : string) :
  wf_state st -> ~ is_sentinel (NodeData lbl shp) ->
  add_node lbl shp st = Ok (id, st') ->
  id = node_name (node_counter st) /\ node_counter st' = S (node_counter st) /\
  wf_state st' /\ extends st st'.
Proof.
  intros Hwf Hns. rewrite add_node_wf by done. intros [= <- <-].
  split; [done|]. split; [done|]. split.
  - destruct st. eapply wf_state_snoc. exact Hwf.
  - split; simpl; [lia| |].
    + eexists. split; [done|]. by apply Forall_singleton.
    + exists []. by rewrite app_nil_r.
Qed.

Lemma edges_append_extends (e : edge) (st st' : state) (u : unit) :
  wf_state st -> edge_ok (node_counter st) e ->
  edges_append e st = Ok (u, st') ->
  node_counter st' = node_counter st /\ wf_state st' /\ extends st st'.
Proof.
  intros Hwf He [= <- <-]. split; [done|]. split; [done|].
  split; simpl; [lia| |].
  - exists []. by rewrite app_nil_r.
  - eexists. split; [done|]. by apply Forall_singleton.
Qed.

Lemma preserves_ret {A : Type} (a : A) (st : state) (Q : A -> nat -> Prop) :
  wf_state st -> Q a (node_counter st) -> preserves (ret a) st Q.
Proof.
  intros Hwf HQ b st' [-> ->]%ret_Ok. auto using extends_refl.
Qed.

Lemma preserves_bind {A B : Type} (m : M A) (k : A -> M B) (st : state)
    (Q1 : A -> nat -> Prop) (Q2 : B -> nat -> Prop) :
  preserves m st Q1 ->
  (forall a st1, wf_state st1 -> node_counter st <= node_counter st1 ->
     Q1 a (node_counter st1) -> preserves (k a) st1 Q2) ->
  preserves (bind m k) st Q2.
Proof.
  intros Hm Hk b st' (a & st1 & H1 & H2)%bind_Ok.
  destruct (Hm _ _ H1) as (Hwf1 & Hext1 & HQ1).
  destruct (Hk a st1 Hwf1 (ext_counter _ _ Hext1) HQ1 _ _ H2)
    as (Hwf2 & Hext2 & HQ2).
  eauto using extends_trans.
Qed.

Lemma preserves_add_node (lbl : string) (shp : string * string) (st : state) :
  wf_state st -> ~ is_sentinel (NodeData lbl shp) ->
  preserves (add_node lbl shp) st
    (fun id c => id = node_name (node_counter st) /\ c = S (node_counter st)).
Proof.
  intros Hwf Hns id st' H.
  destruct (add_node_extends _ _ _ _ _ Hwf Hns H) as (-> & Hc & Hwf' & Hext).
  done.
Qed.

Lemma preserves_edges_append (e : edge) (st : state) :
  wf_state st -> edge_ok (node_counter st) e ->
  preserves (edges_append e) st (fun _ c => c = node_counter st).
Proof.
  intros Hwf He u st' H.
  destruct (edges_append_extends _ _ _ _ Hwf He H) as (Hc & Hwf' & Hext).
  done.
Qed.

Lemma not_sentinel_shape (lbl : string) (shp : string * string) :
  shp <> sentinel_shape -> ~ is_sentinel (NodeData lbl shp).
Proof. intros Hne [Hs _]. done. Qed.

Lemma not_sentinel_blank : ~ is_sentinel (NodeData " " ("((", "))")).
Proof. intros [_ [H|H]]; discriminate H. Qed.

Ltac bnd :=
  lazymatch goal with
  | |- edge_ok _ _ => split; simpl; bnd
  | |- named_below _ (Some (node_name _)) =>
      eexists; split; [|reflexivity]; simpl; lia
  | |- bounded _ None => by left
  | |- bounded _ (Some (node_name _)) => right; bnd
  | H : bounded _ ?x |- bounded _ ?x => eapply bounded_mono; [|exact H]; lia
  | H : named_below _ ?x |- named_below _ ?x =>
      eapply named_below_mono; [|exact H]; lia
  | H : bounded _ ?x, Ht : truthy ?x = true |- named_below _ ?x =>
      eapply named_below_mono; [|exact (bounded_truthy _ _ H Ht)]; lia
  | H : bounded _ ?x, Ht : truthy ?x = true |- bounded _ ?x =>
      eapply bounded_mono; [|exact H]; lia
  end.

(** Steps through [add_node] and [edges.append] at the head of a
    computation. *)
Ltac step_add nid st1 Hwf1 Hle1 Hc1 :=
  eapply preserves_bind;
  [apply preserves_add_node;
   [assumption
   |first [exact not_sentinel_blank | by apply not_sentinel_shape]]
  |intros nid st1 Hwf1 Hle1 [-> Hc1]].

Ltac step_edge st1 Hwf1 Hle1 Hc1 :=
  eapply preserves_bind;
  [apply preserves_edges_append; [assumption|bnd]
  |intros [] st1 Hwf1 Hle1 Hc1; simpl in Hc1].

Lemma preserves_skip (st : state) :
  wf_state st -> preserves (ret tt) st (fun _ c => c = node_counter st).
Proof. intros Hwf. by apply preserves_ret. Qed.

Lemma preserves_edge_if (b : bool) (e : edge) (st : state) :
  wf_state st -> (b = true -> edge_ok (node_counter st) e) ->
  preserves (if b then edges_append e else ret tt) st
    (fun _ c => c = node_counter st).
Proof.
  intros Hwf He. destruct b.
  - apply preserves_edges_append; auto.
  - by apply preserves_skip.
Qed.

Ltac step_edge_if st1 Hwf1 Hle1 Hc1 :=
  eapply preserves_bind;
  [apply preserves_edge_if; [assumption|intros ?; bnd]
  |intros [] st1 Hwf1 Hle1 Hc1; simpl in Hc1].

Lemma for_guarded_ok (c0 : nat) (v : node -> pyid -> M pyid) :
  visitor_ok c0 v ->
  forall body cur st, c0 <= node_counter st -> wf_state st ->
    bounded (node_counter st) cur ->
    preserves (for_guarded v body cur) st (fun r c => bounded c r).
Proof.
  intros Hv body. induction body as [|child rest IH]; intros cur st Hc Hwf Hb.
  - simpl. by apply preserves_ret.
  - simpl. eapply preserves_bind.
    + destruct (truthy cur); [by apply Hv|by apply preserves_ret].
    + intros cur' st1 Hwf1 Hle1 Hb1. apply IH; [lia|done|done].
Qed.

Lemma for_inlined_ok (c0 : nat) (v : node -> pyid -> M pyid) :
  visitor_ok c0 v ->
  forall body cur st, c0 <= node_counter st -> wf_state st ->
    bounded (node_counter st) cur ->
    preserves (for_inlined v body cur) st (fun r c => bounded c r).
Proof.
  intros Hv body. induction body as [|child rest IH]; intros cur st Hc Hwf Hb.
  - simpl. by apply preserves_ret.
  - simpl. eapply preserves_bind.
    + by apply Hv.
    + intros cur' st1 Hwf1 Hle1 Hb1. apply IH; [lia|done|done].
Qed.

Lemma preserves_unparse {A : Type} (src : result string) (k : string -> M A)
    (st : state) (Q : A -> nat -> Prop) :
  (forall lbl, src = Ok lbl -> preserves (k lbl) st Q) ->
  preserves (lbl <- ast_unparse src ;; k lbl) st Q.
Proof.
  intros Hk a st' H. destruct src as [lbl|e]; [|discriminate H].
  by apply (Hk lbl).
Qed.

Lemma visit_ok (functions : list (string * function_record)) (depth : nat) :
  forall c0 ls le, bounded c0 ls -> bounded c0 le ->
    visitor_ok c0 (fun n p => visit functions depth n p ls le).
Proof.
  induction depth as [|depth IH]; intros c0 ls le Hls Hle n p st Hc Hwf Hp.
  { intros r st' H. discriminate H. }
  assert (Hplain : forall lbl shp, shp <> sentinel_shape ->
    preserves (current_id <- add_node lbl shp ;;
               edges_append (p, Some current_id, "") ;;;
               ret (Some current_id)) st (fun r c => bounded c r)).
  { intros lbl shp Hshp.
    step_add nid st1 Hwf1 Hle1 Hc1.
    step_edge st2 Hwf2 Hle2 Hc2.
    apply preserves_ret; [done|bnd]. }
  destruct n as [src|src|src callee|src|test body orelse|cond body orelse
                |cond body orelse| | |name args body|children]; simpl;
    try (apply preserves_unparse; intros lbl _).
  - by apply Hplain.
  - by apply Hplain.
  - destruct callee as [func_id|]; [|by apply Hplain].
    destruct (is_io_name func_id); [by apply Hplain|].
    destruct (dict_get func_id functions) as [fn|]; [|by apply Hplain].
    step_add nid st1 Hwf1 Hle1 Hc1.
    step_edge st2 Hwf2 Hle2 Hc2.
    eapply for_inlined_ok; [apply (IH c0); assumption|lia|done|bnd].
  - step_add nid st1 Hwf1 Hle1 Hc1.
    step_edge st2 Hwf2 Hle2 Hc2.
    apply preserves_ret; [done|bnd].
  - step_add nid st1 Hwf1 Hle1 Hc1.
    step_edge st2 Hwf2 Hle2 Hc2.
    eapply preserves_bind.
    { eapply for_guarded_ok; [apply (IH c0); assumption|lia|done|bnd]. }
    intros true_end st3 Hwf3 Hle3 Ht; cbv beta in Ht.
    eapply preserves_bind.
    { eapply for_guarded_ok; [apply (IH c0); assumption|lia|done|bnd]. }
    intros false_end st4 Hwf4 Hle4 Hf; cbv beta in Hf.
    destruct (negb (truthy true_end) && negb (truthy false_end));
      [apply preserves_ret; [done|bnd]|].
    step_add mid st5 Hwf5 Hle5 Hc5.
    step_edge_if st6 Hwf6 Hle6 Hc6.
    step_edge_if st7 Hwf7 Hle7 Hc7.
    eapply preserves_bind;
      [destruct body; [apply preserves_edges_append; [done|bnd]
                      |by apply preserves_skip]
      |intros [] st8 Hwf8 Hle8 Hc8; simpl in Hc8].
    eapply preserves_bind;
      [destruct orelse; [apply preserves_edges_append; [done|bnd]
                        |by apply preserves_skip]
      |intros [] st9 Hwf9 Hle9 Hc9; simpl in Hc9].
    apply preserves_ret; [done|bnd].
  - step_add lid st1 Hwf1 Hle1 Hc1.
    step_edge st2 Hwf2 Hle2 Hc2.
    step_add aid st3 Hwf3 Hle3 Hc3.
    eapply preserves_bind.
    { eapply (for_guarded_ok (node_counter st3));
        [apply IH; bnd|lia|done|bnd]. }
    intros body_end st4 Hwf4 Hle4 Hb; cbv beta in Hb.
    step_edge_if st5 Hwf5 Hle5 Hc5.
    step_edge st6 Hwf6 Hle6 Hc6.
    apply preserves_ret; [done|bnd].
  - step_add lid st1 Hwf1 Hle1 Hc1.
    step_edge st2 Hwf2 Hle2 Hc2.
    step_add aid st3 Hwf3 Hle3 Hc3.
    eapply preserves_bind.
    { eapply (for_guarded_ok (node_counter st3));
        [apply IH; bnd|lia|done|bnd]. }
    intros body_end st4 Hwf4 Hle4 Hb; cbv beta in Hb.
    step_edge_if st5 Hwf5 Hle5 Hc5.
    step_edge st6 Hwf6 Hle6 Hc6.
    apply preserves_ret; [done|bnd].
  - step_edge_if st1 Hwf1 Hle1 Hc1.
    apply preserves_ret; [done|bnd].
  - step_edge_if st1 Hwf1 Hle1 Hc1.
    apply preserves_ret; [done|bnd].
  - by apply (for_guarded_ok c0 _ (IH c0 ls le Hls Hle)
                (iter_child_nodes (FunctionDef name args body))).
  - by apply (for_guarded_ok c0 _ (IH c0 ls le Hls Hle) children).
Qed.

(** ** The orchestrator *)

Lemma build_body_eq (depth : nat) (tree_body : list node) :
  build_body depth tree_body initial_state =
  entry_statements depth tree_body after_start.
Proof. reflexivity. Qed.

Lemma wf_after_start : wf_state after_start.
Proof. reflexivity. Qed.

Lemma entry_statements_ok (depth : nat) (tree_body : list node) :
  preserves (entry_statements depth tree_body) after_start
    (fun r c => bounded c r).
Proof.
  pose proof wf_after_start as Hwf.
  assert (Hv : visitor_ok 0
    (fun n cur => visit (collect_functions tree_body []) depth n cur None None))
    by (apply visit_ok; by left).
  assert (Hmain : preserves
    (for_guarded
       (fun n cur => visit (collect_functions tree_body []) depth n cur None None)
       (main_body_of tree_body) (Some (node_name 0)))
    after_start (fun r c => bounded c r)).
  { apply (for_guarded_ok 0); [done|simpl; lia|done|]. simpl. bnd. }
  unfold entry_statements.
  destruct (main_body_of tree_body) as [|s rest]; [|exact Hmain].
  destruct (collect_functions tree_body []) as [|[first_func_name fr] fs] eqn:Hfs;
    [exact Hmain|].
  step_add nid st1 Hwf1 Hle1 Hc1. simpl in Hle1, Hc1.
  eapply preserves_bind;
    [apply preserves_edges_append; [assumption|split; simpl; bnd]
    |intros [] st2 Hwf2 Hle2 Hc2; simpl in Hc2].
  destruct (dict_get first_func_name _).
  - eapply (for_guarded_ok 0); [done|lia|done|bnd].
  - intros r st' Hraise. discriminate Hraise.
Qed.

Lemma parse_tree_inv (depth : nat) (tree_body : list node)
    (g : list (string * node_data) * list edge) :
  parse_tree depth tree_body = Ok g ->
  exists last st,
    build_body depth tree_body initial_state = Ok (last, st) /\
    wf_state st /\ extends after_start st /\
    bounded (node_counter st) last /\ g = finished last st.
Proof.
  unfold parse_tree, build. unfold bind at 1.
  destruct (build_body depth tree_body initial_state) as [[last st]|e] eqn:Hb;
    [|done].
  rewrite build_body_eq in Hb.
  destruct (entry_statements_ok _ _ _ _ Hb) as (Hwf & Hext & Hlast).
  unfold bind. rewrite add_node_wf by done.
  intros Hg. exists last, st.
  do 4 (split; [done|]).
  unfold finished. destruct (truthy last); simpl in Hg; by injection Hg as <-.
Qed.

Lemma parse_tree_finished (depth : nat) (tree_body : list node)
    (last : pyid) (st : state) :
  build_body depth tree_body initial_state = Ok (last, st) ->
  parse_tree depth tree_body = Ok (finished last st).
Proof.
  intros Hb. unfold parse_tree, build. unfold bind at 1. rewrite Hb.
  rewrite build_body_eq in Hb.
  destruct (entry_statements_ok _ _ _ _ Hb) as (Hwf & Hext & Hlast).
  unfold bind. rewrite add_node_wf by done.
  unfold finished. by destruct (truthy last).
Qed.

(** ** Equations of [visit] and of the loops *)

Lemma visit_Break (functions : list (string * function_record)) (depth : nat)
    (parent ls le : pyid) (st : state) :
  visit functions (S depth) Break parent ls le st =
  Ok (None,
      if truthy le
      then State (nodes st) (edges st ++ [(parent, le, "break")])
                 (node_counter st)
      else st).
Proof. simpl. unfold bind. by destruct (truthy le). Qed.

Lemma visit_Continue (functions : list (string * function_record))
    (depth : nat) (parent ls le : pyid) (st : state) :
  visit functions (S depth) Continue parent ls le st =
  Ok (None,
      if truthy ls
      then State (nodes st) (edges st ++ [(parent, ls, "continue")])
                 (node_counter st)
      else st).
Proof. simpl. unfold bind. by destruct (truthy ls). Qed.

Lemma visit_If (functions : list (string * function_record)) (depth : nat)
    (test : string) (body orelse : list node) (p ls le : pyid) (st : state) :
  visit functions (S depth) (If (Ok test) body orelse) p ls le st =
  match for_guarded (fun c cur => visit functions depth c cur ls le)
          body (Some (node_name (node_counter st)))
          (with_node ("if " +:+ test) ("{", "}") p st) with
  | Ok (true_end, st1) =>
      match for_guarded (fun c cur => visit functions depth c cur ls le)
              orelse (Some (node_name (node_counter st))) st1 with
      | Ok (false_end, st2) =>
          merge_branches (node_name (node_counter st)) body orelse
            true_end false_end st2
      | Raise e => Raise e
      end
  | Raise e => Raise e
  end.
Proof. reflexivity. Qed.

Lemma visit_loop (functions : list (string * function_record)) (depth : nat)
    (loop : node) (lbl : string) (p ls le : pyid) (st : state) :
  is_loop loop = true -> loop_label loop = Ok lbl ->
  visit functions (S depth) loop p ls le st =
  match for_guarded
          (fun c cur => visit functions depth c cur
                          (Some (node_name (node_counter st)))
                          (Some (node_name (S (node_counter st)))))
          (loop_body loop) (Some (node_name (node_counter st)))
          (loop_entered lbl p st) with
  | Ok (body_end, st1) =>
      Ok (Some (node_name (S (node_counter st))),
          loop_closed (node_name (node_counter st))
            (node_name (S (node_counter st))) body_end st1)
  | Raise e => Raise e
  end.
Proof.
  intros Hloop Hlbl.
  destruct loop as [| | | | |[target|e] body orelse|[test|e] body orelse| | | |];
    try discriminate Hloop; try discriminate Hlbl.
  all: injection Hlbl as <-.
  all: simpl; unfold bind at 1 2 3 4 5; simpl.
  all: unfold loop_entered, loop_closed.
  all: destruct (for_guarded _ body _ _) as [[body_end st1]|e]; [|done].
  all: destruct (truthy body_end);
    unfold bind, edges_append, ret; simpl; by rewrite <- ?app_assoc.
Qed.

Lemma for_guarded_prefix (v : node -> pyid -> M pyid) (pre post : list node)
    (cur r : pyid) (st st1 : state) :
  for_guarded v pre cur st = Ok (r, st1) -> truthy r = false ->
  for_guarded v (pre ++ post) cur st = Ok (r, st1).
Proof.
  intros Hpre Hr. rewrite for_guarded_app. unfold bind. rewrite Hpre.
  by apply for_guarded_falsy.
Qed.

Lemma for_guarded_terminated_cons (v : node -> pyid -> M pyid)
    (pre : list node) (cur r : pyid) (st st1 : state) :
  for_guarded v pre cur st = Ok (r, st1) ->
  truthy cur = true -> truthy r = false ->
  exists child rest, pre = child :: rest.
Proof.
  destruct pre as [|child rest]; [|by eauto].
  intros [= -> ->] Hc Hr. congruence.
Qed.

Lemma main_body_of_app (pre post : list node) :
  main_body_of (pre ++ post) = main_body_of pre ++ main_body_of post.
Proof.
  induction pre as [|n pre IH]; simpl; [done|].
  destruct (is_FunctionDef n); by rewrite IH.
Qed.

Lemma main_body_of_no_defs (post : list node) :
  Forall (fun n => is_FunctionDef n = false) post -> main_body_of post = post.
Proof.
  induction 1 as [|n post Hn _ IH]; simpl; [done|]. by rewrite Hn, IH.
Qed.

Lemma collect_functions_app (pre post : list node)
    (fs : list (string * function_record)) :
  collect_functions (pre ++ post) fs =
  collect_functions post (collect_functions pre fs).
Proof.
  revert fs. induction pre as [|n pre IH]; intros fs; simpl; [done|].
  destruct n; apply IH.
Qed.

Lemma collect_functions_no_defs (post : list node)
    (fs : list (string * function_record)) :
  Forall (fun n => is_FunctionDef n = false) post ->
  collect_functions post fs = fs.
Proof.
  induction 1 as [|n post Hn _ IH]; simpl; [done|].
  destruct n; try done.
Qed.

(** ** Statements reached under a loop context *)

Lemma visit_inlined (functions : list (string * function_record))
    (depth : nat) (lbl func_id : string) (fn : function_record)
    (p ls le : pyid) (st : state) :
  is_io_name func_id = false -> dict_get func_id functions = Some fn ->
  visit functions (S depth) (Expr (Ok lbl) (Some func_id)) p ls le st =
  for_inlined (fun c cur => visit functions depth c cur ls le) (fn_body fn)
    (Some (node_name (node_counter st))) (with_node lbl ("[", "]") p st).
Proof. intros Hio Hfn. simpl. by rewrite Hio, Hfn. Qed.

Lemma visit_generic (functions : list (string * function_record))
    (depth : nat) (n : node) (p ls le : pyid) :
  is_generic n = true ->
  visit functions (S depth) n p ls le =
  for_guarded (fun c cur => visit functions depth c cur ls le)
    (iter_child_nodes n) p.
Proof. by destruct n. Qed.

Lemma visit_jump (functions : list (string * function_record))
    (depth : nat) (jump : node) (p ls le : pyid) (st : state) :
  is_jump jump = true -> truthy (jump_target ls le jump) = true ->
  visit functions (S depth) jump p ls le st =
  Ok (None,
      State (nodes st) (edges st ++ [jump_edge ls le jump p])
            (node_counter st)).
Proof.
  destruct jump; try discriminate; intros _ Ht;
    cbn [jump_target jump_edge] in *.
  - by rewrite visit_Break, Ht.
  - by rewrite visit_Continue, Ht.
Qed.

Lemma run_sequence_app (guarded : bool) (v : node -> pyid -> M pyid)
    (pre post : list node) (cur : pyid) (st : state) :
  run_sequence guarded v (pre ++ post) cur st =
  bind (run_sequence guarded v pre cur) (run_sequence guarded v post) st.
Proof.
  destruct guarded; [apply for_guarded_app|apply for_inlined_app].
Qed.

Lemma run_sequence_cons (guarded : bool) (v : node -> pyid -> M pyid)
    (n : node) (rest : list node) (cur : pyid) (st : state) :
  (guarded = true -> truthy cur = true) ->
  run_sequence guarded v (n :: rest) cur st =
  bind (v n cur) (run_sequence guarded v rest) st.
Proof.
  destruct guarded; [|done]. intros Hcur. simpl. by rewrite Hcur.
Qed.

Lemma keeps_run_sequence (I : state -> Prop) (guarded : bool)
    (v : node -> pyid -> M pyid) (stmts : list node) (cur : pyid) :
  (forall n p, keeps I (v n p)) -> keeps I (run_sequence guarded v stmts cur).
Proof.
  intros Hv. destruct guarded;
    [apply keeps_for_guarded; auto|by apply keeps_for_inlined].
Qed.

Lemma edges_from_add_node (es : list edge) (lbl : string)
    (shp : string * string) :
  keeps (edges_from es) (add_node lbl shp).
Proof. intros st id st' Hes. rewrite add_node_eq. by intros [= <- <-]. Qed.

Lemma edges_from_edges_append (es : list edge) (e : edge) :
  keeps (edges_from es) (edges_append e).
Proof.
  intros st u st' [more Hes] [= <- <-]. exists (more ++ [e]). simpl.
  by rewrite Hes, <- app_assoc.
Qed.

Lemma edges_from_visit (functions : list (string * function_record))
    (es : list edge) (depth : nat) (n : node) (p ls le : pyid) :
  keeps (edges_from es) (visit functions depth n p ls le).
Proof.
  apply keeps_visit;
    [apply edges_from_add_node|apply edges_from_edges_append].
Qed.

(** The statements that follow in the list keep the edges made so far. *)
Lemma run_sequence_edges_from (functions : list (string * function_record))
    (ls le : pyid) (es : list edge) (guarded : bool) (depth : nat)
    (pre post : list node) (n : node) (cur parent r : pyid)
    (st st1 st' : state) :
  run_sequence guarded
    (fun c cur => visit functions (S depth) c cur ls le) pre cur st
    = Ok (parent, st1) ->
  (guarded = true -> truthy parent = true) ->
  (forall r1 st2,
     visit functions (S depth) n parent ls le st1 = Ok (r1, st2) ->
     edges_from es st2) ->
  run_sequence guarded
    (fun c cur => visit functions (S depth) c cur ls le) (pre ++ n :: post)
    cur st = Ok (r, st') ->
  edges_from es st'.
Proof.
  intros Hpre Hguard Hn. rewrite run_sequence_app. unfold bind at 1.
  rewrite Hpre. rewrite run_sequence_cons by done.
  intros (r1 & st2 & Hvisit & Hpost)%bind_Ok.
  eapply (keeps_run_sequence (edges_from es)); [|by eapply Hn|exact Hpost].
  intros c q. apply edges_from_visit.
Qed.

(** A [break] or a [continue] that is reached leaves its edge, to the exit
    or to the header of the context, in the edges of the whole list. *)
Lemma reaches_edges_from (functions : list (string * function_record))
    (ls le : pyid) (jump : node) (guarded : bool) (depth : nat)
    (stmts : list node) (cur : pyid) (st : state) (src : pyid) (st1 : state) :
  reaches functions ls le jump guarded depth stmts cur st src st1 ->
  is_jump jump = true -> truthy (jump_target ls le jump) = true ->
  forall r st',
    run_sequence guarded (fun c cur => visit functions depth c cur ls le)
      stmts cur st = Ok (r, st') ->
    edges_from (edges st1 ++ [jump_edge ls le jump src]) st'.
Proof.
  intros Hreach Hjump Htarget.
  induction Hreach as
    [guarded depth pre post cur st src st1 Hpre Hguard
    |guarded depth pre post test body orelse cur st parent st1 src st2
       Hpre Hguard Hbody IH
    |guarded depth pre post test body orelse cur st parent st1 true_end st2
       src st3 Hpre Hguard Htrue Horelse IH
    |guarded depth pre post n cur st parent st1 src st2 Hn Hpre Hguard
       Hchildren IH
    |guarded depth pre post lbl func_id fn cur st parent st1 src st2
       Hio Hfn Hpre Hguard Hbody IH];
    intros r st';
    (eapply run_sequence_edges_from; [exact Hpre|exact Hguard|]);
    intros r1 stx.
  - rewrite visit_jump by done. intros [= <- <-].
    exists []. simpl. by rewrite app_nil_r.
  - rewrite visit_If.
    destruct (for_guarded _ body _ _) as [[true_end st3]|e] eqn:Htrue; [|done].
    destruct (for_guarded _ orelse _ _) as [[false_end st4]|e] eqn:Hfalse;
      [|done].
    apply (keeps_merge_branches (edges_from (edges st2 ++ [jump_edge ls le jump src])));
      [intros; apply edges_from_add_node
      |intros; apply edges_from_edges_append|].
    eapply (keeps_for_guarded (edges_from _)); [|by eapply IH|exact Hfalse].
    intros c q _. apply edges_from_visit.
  - rewrite visit_If, Htrue.
    destruct (for_guarded _ orelse _ _) as [[false_end st4]|e] eqn:Hfalse;
      [|done].
    apply (keeps_merge_branches (edges_from (edges st3 ++ [jump_edge ls le jump src])));
      [intros; apply edges_from_add_node
      |intros; apply edges_from_edges_append|].
    by eapply IH.
  - rewrite visit_generic by done. apply IH.
  - rewrite (visit_inlined _ _ _ _ fn) by done. apply IH.
Qed.

(** ** Ids in creation order *)




(** * The claims *)

(** ** C1: the if/else example *)

(** C1, as stated, fails on its own program: the nodes of the two branch
    assignments, [N2] and [N3], do not have the delimiters [[] and []] the
    builder gives a process node (a plain expression statement or a call
    site), but [[/] and [/]], those it gives a call of print or input. *)
Lemma if_else_assignments_not_process :
  exists (ns : list (string * node_data)) (es : list edge),
    parse_tree 2 if_else_program = Ok (ns, es) /\
    shape <$> dict_get "N2" ns = Some ("[/", "/]") /\
    shape <$> dict_get "N3" ns = Some ("[/", "/]") /\
    shape <$> dict_get "N2" ns <> Some ("[", "]") /\
    shape <$> dict_get "N3" ns <> Some ("[", "]") /\
    (forall depth lbl p ls le st,
       exists id st',
         visit [] (S depth) (Expr (Ok lbl) None) p ls le st
           = Ok (Some id, st') /\
         shape <$> dict_get id (nodes st') = Some ("[", "]")).
Proof.
  exists if_else_nodes, if_else_edges.
  split; [reflexivity|]. split; [reflexivity|]. split; [reflexivity|].
  split; [discriminate|]. split; [discriminate|].
  intros depth lbl p ls le st. do 2 eexists. split; [reflexivity|].
  cbn [nodes]. by rewrite dict_get_set_eq.
Qed.

(** C1, amended. For the program [if x > 0: y = 1 else: y = 2] the build
    returns exactly six nodes, in creation order Start, the decision node
    labelled with the condition, one node per branch assignment, with the
    delimiters [[/] and [/]], the merge node and End, and exactly six
    edges: Start to the decision node, the decision
    node to each assignment (all three unlabelled), each assignment to the
    merge node labelled Yes and No respectively, and the merge node to End
    (unlabelled).  Two nested calls of [visit] are all it needs. *)
Theorem if_else_graph (depth : nat) :
  parse_tree (S (S depth)) if_else_program =
  Ok ([("N0", NodeData "Start" ("((", "))"));
       ("N1", NodeData "if x > 0" ("{", "}"));
       ("N2", NodeData "y = 1" ("[/", "/]"));
       ("N3", NodeData "y = 2" ("[/", "/]"));
       ("N4", NodeData " " ("((", "))"));
       ("N5", NodeData "End" ("((", "))"))],
      [(Some "N0", Some "N1", "");
       (Some "N1", Some "N2", "");
       (Some "N1", Some "N3", "");
       (Some "N2", Some "N4", "Yes");
       (Some "N3", Some "N4", "No");
       (Some "N4", Some "N5", "")]).
Proof. reflexivity. Qed.

(** The document [generate_mermaid_flowchart] makes of it. *)
Example if_else_document (print_error : string -> exn -> result unit)
    (code : string) :
  generate_mermaid_flowchart (fun _ => Ok if_else_program) 1000 print_error
    code =
  Ok (render
        ([("N0", NodeData "Start" ("((", "))"));
          ("N1", NodeData "if x > 0" ("{", "}"));
          ("N2", NodeData "y = 1" ("[/", "/]"));
          ("N3", NodeData "y = 2" ("[/", "/]"));
          ("N4", NodeData " " ("((", "))"));
          ("N5", NodeData "End" ("((", "))"))],
         [(Some "N0", Some "N1", "");
          (Some "N1", Some "N2", "");
          (Some "N1", Some "N3", "");
          (Some "N2", Some "N4", "Yes");
          (Some "N3", Some "N4", "No");
          (Some "N4", Some "N5", "")])).
Proof. reflexivity. Qed.

(** ** C2: a conditional without else *)

(** C2. For [if x > 0: y = 1] (a true branch that falls through, no else)
    the builder creates one merge node, [N3], and the true branch gives its
    one Yes edge, but the edge from the decision node [N1] to the merge
    node labelled No is appended twice: once because [false_end] is still
    the decision node, once more because [node.orelse] is empty. *)
Theorem if_without_else_duplicate_no_edge (depth : nat) :
  parse_tree (S (S depth)) if_only_program =
  Ok ([("N0", NodeData "Start" ("((", "))"));
       ("N1", NodeData "if x > 0" ("{", "}"));
       ("N2", NodeData "y = 1" ("[/", "/]"));
       ("N3", NodeData " " ("((", "))"));
       ("N4", NodeData "End" ("((", "))"))],
      [(Some "N0", Some "N1", "");
       (Some "N1", Some "N2", "");
       (Some "N2", Some "N3", "Yes");
       (Some "N1", Some "N3", "No");
       (Some "N1", Some "N3", "No");
       (Some "N3", Some "N4", "")]).
Proof. reflexivity. Qed.

(** The general shape of that defect: whenever the true branch of a
    conditional without else is not empty and falls through, the edge from
    the decision node to the merge node labelled No is appended twice. *)
Lemma if_without_else_edges (functions : list (string * function_record))
    (depth : nat) (test : string) (body : list node)
    (p ls le true_end : pyid) (st st1 : state) :
  let cond_id := node_name (node_counter st) in
  let merge_id := node_name (node_counter st1) in
  body <> [] ->
  for_guarded (fun c cur => visit functions depth c cur ls le)
    body (Some cond_id) (with_node ("if " +:+ test) ("{", "}") p st)
  = Ok (true_end, st1) ->
  truthy true_end = true ->
  visit functions (S depth) (If (Ok test) body []) p ls le st =
  Ok (Some merge_id,
      State (dict_set merge_id (NodeData " " ("((", "))")) (nodes st1))
            (edges st1 ++ [(true_end, Some merge_id, "Yes");
                           (Some cond_id, Some merge_id, "No");
                           (Some cond_id, Some merge_id, "No")])
            (S (node_counter st1))).
Proof.
  intros cond_id merge_id Hne Hbody Ht. subst cond_id merge_id.
  rewrite visit_If, Hbody. cbn [for_guarded ret].
  unfold merge_branches. rewrite Ht. destruct body; [done|].
  unfold add_node, get_node_id, edges_append, bind, ret; simpl.
  by rewrite <- !app_assoc.
Qed.

(** ** C3: a conditional whose branches both terminate *)

(** C3. When the visits of the true branch and of the false branch of a
    conditional both return none (or a false value), the visit of the
    conditional returns none in the state the branches left: no merge node
    and no edge is added after them.  And when the entry statements of a
    build end with none, the graph is the one they left plus the End node:
    no edge of it ends at End. *)
Theorem both_branches_terminate :
  (forall (functions : list (string * function_record)) (depth : nat)
      (test : string) (body orelse : list node) (p ls le : pyid)
      (st st1 st2 : state) (true_end false_end : pyid),
    let cond_id := node_name (node_counter st) in
    for_guarded (fun c cur => visit functions depth c cur ls le)
      body (Some cond_id) (with_node ("if " +:+ test) ("{", "}") p st)
      = Ok (true_end, st1) ->
    for_guarded (fun c cur => visit functions depth c cur ls le)
      orelse (Some cond_id) st1 = Ok (false_end, st2) ->
    truthy true_end = false -> truthy false_end = false ->
    visit functions (S depth) (If (Ok test) body orelse) p ls le st
      = Ok (None, st2)) /\
  (forall (depth : nat) (tree_body : list node) (last : pyid) (st : state),
    build_body depth tree_body initial_state = Ok (last, st) ->
    truthy last = false ->
    parse_tree depth tree_body =
      Ok (nodes st ++ [(node_name (node_counter st), end_data)], edges st) /\
    Forall (fun e : edge => e.1.2 <> Some (node_name (node_counter st)))
      (edges st)).
Proof.
  split.
  - intros functions depth test body orelse p ls le st st1 st2 true_end
      false_end cond_id Hbody Horelse Ht Hf. subst cond_id.
    rewrite visit_If, Hbody, Horelse. unfold merge_branches.
    by rewrite Ht, Hf.
  - intros depth tree_body last st Hb Hlast.
    rewrite (parse_tree_finished _ _ _ _ Hb). unfold finished.
    rewrite Hlast. split; [done|].
    rewrite build_body_eq in Hb.
    destruct (entry_statements_ok _ _ _ _ Hb) as (_ & [_ _ (es & -> & Hes)] & _).
    simpl. eapply Forall_impl; [exact Hes|].
    intros [[src tgt] lbl] [_ (k & Hk & ->)]; simpl.
    intros Heq.
    assert (node_name k = node_name (node_counter st)) as Hk'%node_name_inj
      by congruence.
    lia.
Qed.

Lemma both_branches_terminate_witness :
  visit [] 2 (If (Ok "c") [Return (Ok "return 1")] [Return (Ok "return 2")])
        (Some "N0") None None after_start = Ok (None, state_if_both) /\
  parse_tree 2 [If (Ok "c") [Return (Ok "return 1")] [Return (Ok "return 2")]] =
    Ok (nodes state_if_both ++ [("N4", end_data)], edges state_if_both) /\
  Forall (fun e : edge => e.1.2 <> Some "N4") (edges state_if_both).
Proof.
  destruct both_branches_terminate as [Hvisit Hbuild]. split.
  - apply (Hvisit [] 1 "c" [Return (Ok "return 1")] [Return (Ok "return 2")]
             (Some "N0") None None after_start state_if_true state_if_both
             None None); reflexivity.
  - apply (Hbuild 2 [If (Ok "c") [Return (Ok "return 1")] [Return (Ok "return 2")]]
             None state_if_both); reflexivity.
Defined.

(** Both terminating branches in a whole program:
    [if c: return 1 / else: return 2]. *)
Example if_else_return_graph (depth : nat) :
  parse_tree (S (S depth)) [If (Ok "c") [Return (Ok "return 1")] [Return (Ok "return 2")]] =
  Ok ([("N0", NodeData "Start" ("((", "))"));
       ("N1", NodeData "if c" ("{", "}"));
       ("N2", NodeData "return 1" ("(", ")"));
       ("N3", NodeData "return 2" ("(", ")"));
       ("N4", NodeData "End" ("((", "))"))],
      [(Some "N0", Some "N1", "");
       (Some "N1", Some "N2", "");
       (Some "N1", Some "N3", "")]).
Proof. reflexivity. Qed.

(** ** C4: loops and break *)



(** The loop of the specification's example,
    [while x < 10: if x == 5: break / x = x + 1]: the break inside the
    conditional goes to [N2], the exit node of the loop [N1]. *)
Example while_break_graph (depth : nat) :
  parse_tree (S (S (S depth)))
    [While (Ok "x < 10") [If (Ok "x == 5") [Break] []; Assign (Ok "x = x + 1")] []] =
  Ok ([("N0", NodeData "Start" ("((", "))"));
       ("N1", NodeData "While x < 10" ("{{", "}}"));
       ("N2", NodeData " " ("((", "))"));
       ("N3", NodeData "if x == 5" ("{", "}"));
       ("N4", NodeData " " ("((", "))"));
       ("N5", NodeData "x = x + 1" ("[/", "/]"));
       ("N6", NodeData "End" ("((", "))"))],
      [(Some "N0", Some "N1", "");
       (Some "N1", Some "N3", "");
       (Some "N3", Some "N2", "break");
       (Some "N3", Some "N4", "No");
       (Some "N3", Some "N4", "No");
       (Some "N4", Some "N5", "");
       (Some "N5", Some "N1", "Loop");
       (Some "N1", Some "N2", "End Loop");
       (Some "N2", Some "N6", "")]).
Proof. reflexivity. Qed.

(** A break in an inner loop goes to the inner exit [N4], not to [N2]. *)
Example nested_loops_break_graph (depth : nat) :
  parse_tree (S (S (S depth)))
    [While (Ok "a") [For (Ok "i") [Break] []] []] =
  Ok ([("N0", NodeData "Start" ("((", "))"));
       ("N1", NodeData "While a" ("{{", "}}"));
       ("N2", NodeData " " ("((", "))"));
       ("N3", NodeData "For i" ("{{", "}}"));
       ("N4", NodeData " " ("((", "))"));
       ("N5", NodeData "End" ("((", "))"))],
      [(Some "N0", Some "N1", "");
       (Some "N1", Some "N3", "");
       (Some "N3", Some "N4", "break");
       (Some "N3", Some "N4", "End Loop");
       (Some "N4", Some "N1", "Loop");
       (Some "N1", Some "N2", "End Loop");
       (Some "N2", Some "N5", "")]).
Proof. reflexivity. Qed.

(** ** C5: break and continue outside a loop *)

(** C5, as stated, fails on [break / x = 1] at top level: the assignment
    after the break is not visited, the graph holds Start and End only and
    no edge. *)
Lemma orphan_break_stops_the_sequence :
  parse_tree 1 [Break; Assign (Ok "x = 1")] =
  Ok ([("N0", NodeData "Start" ("((", "))"));
       ("N1", NodeData "End" ("((", "))"))], []) /\
  ~ (exists (ns : list (string * node_data)) (es : list edge)
            (entry : string * node_data),
       parse_tree 1 [Break; Assign (Ok "x = 1")] = Ok (ns, es) /\
       entry ∈ ns /\ label entry.2 = "x = 1").
Proof.
  split; [reflexivity|].
  intros (ns & es & entry & Hp & Hin & Hl).
  change (parse_tree 1 [Break; Assign (Ok "x = 1")])
    with (@Ok (list (string * node_data) * list edge)
              ([("N0", NodeData "Start" ("((", "))"));
                ("N1", NodeData "End" ("((", "))"))], [])) in Hp.
  injection Hp as <- <-.
  apply elem_of_cons in Hin as [->|Hin]; [discriminate Hl|].
  apply elem_of_cons in Hin as [->|Hin]; [discriminate Hl|].
  by apply elem_of_nil in Hin.
Qed.

(** C5, amended. A break visited with no loop exit, and a continue visited
    with no loop header, add no node and no edge and return none; the
    statements after it in a sequence whose loop tests the running id (top
    level, branch, loop body, children of a generic node) are then skipped,
    adding nothing; and a program that starts with an orphan break or
    continue gives the graph of Start and End with no edge. *)
Theorem orphan_break_continue (functions : list (string * function_record))
    (depth : nat) (parent ls le : pyid) (rest : list node) (st : state) :
  visit functions (S depth) Break parent ls None st = Ok (None, st) /\
  visit functions (S depth) Continue parent None le st = Ok (None, st) /\
  (truthy parent = true ->
   for_guarded (fun n cur => visit functions (S depth) n cur None None)
     (Break :: rest) parent st = Ok (None, st) /\
   for_guarded (fun n cur => visit functions (S depth) n cur None None)
     (Continue :: rest) parent st = Ok (None, st)) /\
  parse_tree (S depth) (Break :: rest) =
    Ok ([(node_name 0, start_data); (node_name 1, end_data)], []) /\
  parse_tree (S depth) (Continue :: rest) =
    Ok ([(node_name 0, start_data); (node_name 1, end_data)], []).
Proof.
  split; [by rewrite visit_Break|]. split; [by rewrite visit_Continue|].
  assert (Hseq : forall fs p s r, truthy p = true ->
    for_guarded (fun n cur => visit fs (S depth) n cur None None)
      (Break :: r) p s = Ok (None, s) /\
    for_guarded (fun n cur => visit fs (S depth) n cur None None)
      (Continue :: r) p s = Ok (None, s)).
  { intros fs p s r Hp. cbn [for_guarded]. unfold bind. rewrite Hp.
    rewrite visit_Break, visit_Continue.
    by rewrite !for_guarded_falsy. }
  split; [apply Hseq|].
  split.
  - unfold parse_tree, build. unfold bind at 1. rewrite build_body_eq.
    unfold entry_statements. cbn [main_body_of is_FunctionDef].
    destruct (Hseq (collect_functions (Break :: rest) [])
                (Some (node_name 0)) after_start (main_body_of rest) eq_refl)
      as [-> _].
    reflexivity.
  - unfold parse_tree, build. unfold bind at 1. rewrite build_body_eq.
    unfold entry_statements. cbn [main_body_of is_FunctionDef].
    destruct (Hseq (collect_functions (Continue :: rest) [])
                (Some (node_name 0)) after_start (main_body_of rest) eq_refl)
      as [_ ->].
    reflexivity.
Qed.

Lemma orphan_break_continue_witness :
  truthy (Some "N0") = true /\
  for_guarded (fun n cur => visit [] 1 n cur None None)
    [Break; Assign (Ok "x = 1")] (Some "N0") after_start = Ok (None, after_start).
Proof.
  split; [reflexivity|].
  destruct (orphan_break_continue [] 0 (Some "N0") None None
              [Assign (Ok "x = 1")] after_start) as (_ & _ & Hseq & _).
  exact (proj1 (Hseq eq_refl)).
Defined.

(** ** C6: the fallback document *)

Lemma self_recursive_visit (depth : nat) (p ls le : pyid) (st : state) :
  visit (collect_functions self_recursive_program []) depth
        (Expr (Ok "f()") (Some "f")) p ls le st = Raise RecursionError.
Proof.
  revert p st. induction depth as [|depth IH]; intros p st; [done|].
  rewrite (visit_inlined _ _ _ _ (FunctionRecord [Expr (Ok "f()") (Some "f")] []))
    by done.
  cbn [fn_body for_inlined]. unfold bind. by rewrite IH.
Qed.

Lemma self_recursive_raises (depth : nat) :
  parse_tree depth self_recursive_program = Raise RecursionError.
Proof.
  unfold parse_tree, build. unfold bind at 1. rewrite build_body_eq.
  unfold entry_statements.
  cbn [self_recursive_program main_body_of is_FunctionDef for_guarded].
  rewrite node_name_truthy. unfold bind.
  by rewrite self_recursive_visit.
Qed.

(** C6. The claim fails where the handler itself raises.  Whatever the
    parser does with the input and whatever the recursion limit: when
    [parse_code_to_ast] raises, in the parser or in the builder, and the
    [print] of the handler raises in turn (as it does when the standard
    output cannot encode the offending line quoted by the traceback), that
    second exception leaves [generate_mermaid_flowchart]; when that
    [print] returns, the function returns the fallback document: the header
    line and the one node [A] with the label [Error: Could not parse code],
    without any arrow; when [parse_code_to_ast] returns a graph, the
    function returns the rendering of that graph. *)
Theorem generate_propagates_print_error
    (ast_parse : string -> result (list node)) (recursion_limit : nat)
    (print_error : string -> exn -> result unit) (code : string) :
  (forall e e',
     parse_code_to_ast ast_parse recursion_limit code = Raise e ->
     print_error code e = Raise e' ->
     generate_mermaid_flowchart ast_parse recursion_limit print_error code
       = Raise e') /\
  (forall e,
     parse_code_to_ast ast_parse recursion_limit code = Raise e ->
     print_error code e = Ok tt ->
     generate_mermaid_flowchart ast_parse recursion_limit print_error code
       = Ok fallback_document) /\
  (forall g, parse_code_to_ast ast_parse recursion_limit code = Ok g ->
     generate_mermaid_flowchart ast_parse recursion_limit print_error code
       = Ok (render g)) /\
  fallback_document = "graph TD" +:+ LF +:+ "    A[Error: Could not parse code]" /\
  occurs "-->" fallback_document = false.
Proof.
  unfold generate_mermaid_flowchart, try_except.
  destruct (parse_code_to_ast ast_parse recursion_limit code) as [g|e].
  - split; [intros e e' [=]|]. split; [intros e [=]|].
    split; [by intros g' [= ->]|]. by split.
  - split; [by intros e0 e' [= <-] ->|].
    split; [by intros e0 [= <-] ->|].
    split; [intros g' [=]|]. by split.
Qed.

(** The syntax error of [arrow_code] under a standard output that encodes
    ASCII only. *)
Lemma generate_propagates_print_error_witness :
  parse_code_to_ast (fun _ => Raise SyntaxError) 1000 arrow_code =
    Raise SyntaxError /\
  print_to_ascii_stdout arrow_code SyntaxError = Raise UnicodeEncodeError /\
  generate_mermaid_flowchart (fun _ => Raise SyntaxError) 1000
    print_to_ascii_stdout arrow_code = Raise UnicodeEncodeError.
Proof.
  split; [reflexivity|]. split; [reflexivity|].
  destruct (generate_propagates_print_error (fun _ => Raise SyntaxError) 1000
              print_to_ascii_stdout arrow_code)
    as (Hraise & _).
  exact (Hraise SyntaxError UnicodeEncodeError eq_refl eq_refl).
Defined.

(** With a [print] that returns, a syntax error and an endless inlining
    both give the fallback document. *)
Example generate_fallback_examples :
  generate_mermaid_flowchart (fun _ => Raise SyntaxError) 1000
    (fun _ _ => Ok tt) "if" = Ok fallback_document /\
  parse_code_to_ast (fun _ => Ok self_recursive_program) 50 "f()"
    = Raise RecursionError /\
  generate_mermaid_flowchart (fun _ => Ok self_recursive_program) 50
    (fun _ _ => Ok tt) "f()" = Ok fallback_document.
Proof. split; [reflexivity|]. split; vm_compute; reflexivity. Qed.

(** ** C7: assignments *)

(** C7, as stated, fails on [x = 1 / x]: the node of the assignment, [N1],
    has the delimiters of print and input calls, not those of [N2], the
    plain expression statement. *)
Lemma assignment_shape_differs :
  exists (ns : list (string * node_data)) (es : list edge),
    parse_tree 1 [Assign (Ok "x = 1"); Expr (Ok "x") None] = Ok (ns, es) /\
    shape <$> dict_get "N1" ns = Some ("[/", "/]") /\
    shape <$> dict_get "N2" ns = Some ("[", "]") /\
    shape <$> dict_get "N1" ns <> shape <$> dict_get "N2" ns.
Proof.
  exists [("N0", NodeData "Start" ("((", "))"));
          ("N1", NodeData "x = 1" ("[/", "/]"));
          ("N2", NodeData "x" ("[", "]"));
          ("N3", NodeData "End" ("((", "))"))],
         [(Some "N0", Some "N1", ""); (Some "N1", Some "N2", "");
          (Some "N2", Some "N3", "")].
  split; [reflexivity|]. split; [reflexivity|]. split; [reflexivity|].
  discriminate.
Qed.

(** C7, amended. For every assignment or augmented assignment whose text
    [ast.unparse] returns, visited in a well-formed state, the builder
    creates exactly one node, labelled with the statement's text, whose
    shape is the pair of delimiters [[/] and [/]] (those of a call of print
    or input, while a plain expression statement gets [[] and []]), appends
    one unlabelled edge from the predecessor to it and returns the new
    node; when [ast.unparse] raises on the statement, as it does on a
    deeply nested expression, the visit raises that exception. *)
Theorem assignment_node (functions : list (string * function_record))
    (depth : nat) (n : node) (unparsed : result string) (p ls le : pyid)
    (st : state) :
  n = Assign unparsed \/ n = AugAssign unparsed ->
  wf_state st ->
  let new_id := node_name (node_counter st) in
  let created (src : string) (shp : string * string)
    : result (pyid * state) :=
    Ok (Some new_id,
        State (nodes st ++ [(new_id, NodeData src shp)])
              (edges st ++ [(p, Some new_id, "")])
              (S (node_counter st))) in
  (forall src, unparsed = Ok src ->
     visit functions (S depth) n p ls le st = created src ("[/", "/]")) /\
  (forall e, unparsed = Raise e ->
     visit functions (S depth) n p ls le st = Raise e) /\
  (forall src,
     visit functions (S depth) (Expr (Ok src) (Some "print")) p ls le st
       = created src ("[/", "/]") /\
     visit functions (S depth) (Expr (Ok src) (Some "input")) p ls le st
       = created src ("[/", "/]") /\
     visit functions (S depth) (Expr (Ok src) None) p ls le st
       = created src ("[", "]")).
Proof.
  intros Hn Hwf new_id created.
  assert (Hplain : forall src shp,
    (current_id <- add_node src shp ;;
     edges_append (p, Some current_id, "") ;;;
     ret (Some current_id)) st = created src shp).
  { intros src shp. unfold bind at 1. by rewrite add_node_wf. }
  split; [|split].
  - intros src ->. destruct Hn as [->| ->]; apply Hplain.
  - intros e ->. by destruct Hn as [->| ->].
  - intros src. repeat split; apply Hplain.
Qed.

Lemma assignment_node_witness :
  (Assign (Ok "x = 1") = Assign (Ok "x = 1") \/
   Assign (Ok "x = 1") = AugAssign (Ok "x = 1")) /\
  wf_state after_start /\
  visit [] 1 (Assign (Ok "x = 1")) (Some "N0") None None after_start =
  Ok (Some "N1",
      State [("N0", start_data); ("N1", NodeData "x = 1" ("[/", "/]"))]
            [(Some "N0", Some "N1", "")] 2).
Proof.
  split; [by left|]. split; [reflexivity|].
  exact (proj1 (assignment_node [] 0 (Assign (Ok "x = 1")) (Ok "x = 1")
                  (Some "N0") None None after_start (or_introl eq_refl)
                  eq_refl) "x = 1" eq_refl).
Defined.

(** An assignment whose right-hand side is nested too deeply for
    [ast.unparse], such as [x = ----...y] with hundreds of signs: the
    build raises [RecursionError] although no call is inlined. *)
Example deep_expression_raises (depth : nat) :
  parse_tree (S depth) [Assign (Raise RecursionError)] = Raise RecursionError.
Proof. reflexivity. Qed.

(** ** C8: node ids and sentinels *)



(** ** C9: statements after a terminated path *)

(** C9. Once the statements [pre] of a sequence have ended in none (a false
    running id), the statements [post] that follow are skipped: the loop
    over [pre ++ post] returns the value and the state of the loop over
    [pre]; and so a conditional, a loop or a whole program gives the same
    result with [post] after the terminated [pre] as without it, in the
    true branch, the false branch, the loop body and at top level; and
    when the program has no top-level statement and the body of its entry
    function is [pre ++ post], the graph is what [pre] left after the
    Start node and the definition node, and the End node, without any
    edge to it: [post] adds nothing. *)
Theorem later_statements_skipped
    (functions : list (string * function_record)) (depth : nat)
    (pre post : list node) (r : pyid) (st1 : state) :
  truthy r = false ->
  (forall (v : node -> pyid -> M pyid) (cur : pyid) (st : state),
     for_guarded v pre cur st = Ok (r, st1) ->
     for_guarded v (pre ++ post) cur st = Ok (r, st1)) /\
  (forall (test : string) (orelse : list node) (p ls le : pyid) (st : state),
     for_guarded (fun c cur => visit functions depth c cur ls le) pre
       (Some (node_name (node_counter st)))
       (with_node ("if " +:+ test) ("{", "}") p st) = Ok (r, st1) ->
     visit functions (S depth) (If (Ok test) (pre ++ post) orelse) p ls le st =
     visit functions (S depth) (If (Ok test) pre orelse) p ls le st) /\
  (forall (test : string) (body : list node) (p ls le true_end : pyid)
          (st st0 : state),
     for_guarded (fun c cur => visit functions depth c cur ls le) body
       (Some (node_name (node_counter st)))
       (with_node ("if " +:+ test) ("{", "}") p st) = Ok (true_end, st0) ->
     for_guarded (fun c cur => visit functions depth c cur ls le) pre
       (Some (node_name (node_counter st))) st0 = Ok (r, st1) ->
     visit functions (S depth) (If (Ok test) body (pre ++ post)) p ls le st =
     visit functions (S depth) (If (Ok test) body pre) p ls le st) /\
  (forall (is_for : bool) (head : string) (orelse : list node)
          (p ls le : pyid) (st : state),
     for_guarded
       (fun c cur => visit functions depth c cur
                       (Some (node_name (node_counter st)))
                       (Some (node_name (S (node_counter st)))))
       pre (Some (node_name (node_counter st)))
       (loop_entered ((if is_for then "For " else "While ") +:+ head) p st)
       = Ok (r, st1) ->
     visit functions (S depth) (loop_node is_for head (pre ++ post) orelse)
           p ls le st =
     visit functions (S depth) (loop_node is_for head pre orelse) p ls le st) /\
  (Forall (fun n => is_FunctionDef n = false) post ->
   for_guarded
     (fun n cur => visit (collect_functions pre []) depth n cur None None)
     (main_body_of pre) (Some (node_name 0)) after_start = Ok (r, st1) ->
   parse_tree depth (pre ++ post) = parse_tree depth pre) /\
  (forall (tree_body : list node) (name : string) (entry : function_record)
          (others : list (string * function_record)),
     main_body_of tree_body = [] ->
     collect_functions tree_body [] = (name, entry) :: others ->
     fn_body entry = pre ++ post ->
     for_guarded
       (fun n cur =>
          visit (collect_functions tree_body []) depth n cur None None)
       pre (Some (node_name 1)) (after_def name) = Ok (r, st1) ->
     parse_tree depth tree_body =
     Ok (nodes st1 ++ [(node_name (node_counter st1), end_data)], edges st1)).
Proof.
  intros Hr. split; [|split; [|split; [|split; [|split]]]].
  - intros v cur st Hpre. by apply for_guarded_prefix.
  - intros test orelse p ls le st Hpre.
    destruct (for_guarded_terminated_cons _ _ _ _ _ _ Hpre eq_refl Hr)
      as (child & rest & ->).
    rewrite !visit_If, (for_guarded_prefix _ _ post _ _ _ _ Hpre Hr), Hpre.
    done.
  - intros test body p ls le true_end st st0 Hbody Hpre.
    destruct (for_guarded_terminated_cons _ _ _ _ _ _ Hpre eq_refl Hr)
      as (child & rest & ->).
    rewrite !visit_If, Hbody.
    rewrite (for_guarded_prefix _ _ post _ _ _ _ Hpre Hr), Hpre.
    done.
  - intros is_for head orelse p ls le st Hpre.
    rewrite !(visit_loop _ _ _ ((if is_for then "For " else "While ") +:+ head))
      by (by destruct is_for).
    destruct is_for; cbn [loop_node loop_body] in *;
      by rewrite (for_guarded_prefix _ _ post _ _ _ _ Hpre Hr), Hpre.
  - intros Hpost Hpre.
    destruct (for_guarded_terminated_cons _ _ _ _ _ _ Hpre eq_refl Hr)
      as (child & rest & Hmain).
    unfold parse_tree, build. unfold bind at 1 3.
    rewrite !build_body_eq. unfold entry_statements.
    rewrite collect_functions_app, (collect_functions_no_defs post) by done.
    rewrite main_body_of_app, (main_body_of_no_defs post) by done.
    rewrite Hmain in *. cbn [app].
    change (child :: rest ++ post) with ((child :: rest) ++ post).
    by rewrite (for_guarded_prefix _ _ post _ _ _ _ Hpre Hr), Hpre.
  - intros tree_body name entry others Hmain Htable Hbody Hpre.
    rewrite (parse_tree_finished depth tree_body r st1).
    { unfold finished. by rewrite Hr. }
    rewrite build_body_eq. unfold entry_statements.
    rewrite Htable in Hpre. rewrite Hmain, Htable. unfold bind at 1 2.
    cbn [dict_get]. rewrite String.eqb_refl, Hbody.
    rewrite (add_node_wf _ _ after_start wf_after_start).
    exact (for_guarded_prefix _ _ post _ _ _ _ Hpre Hr).
Qed.

(** [return x / y = 1] at top level and, as the only definition of a
    program without top-level statement, [def f(): return x / y = 1]. *)
Lemma later_statements_skipped_witness :
  truthy None = false /\
  for_guarded (fun n cur => visit [] 1 n cur None None)
    [Return (Ok "return x")] (Some "N0") after_start = Ok (None, state_returned) /\
  parse_tree 1 ([Return (Ok "return x")] ++ [Assign (Ok "y = 1")]) =
  parse_tree 1 [Return (Ok "return x")] /\
  parse_tree 1
    [FunctionDef "f" [] [Return (Ok "return x"); Assign (Ok "y = 1")]] =
  Ok ([("N0", start_data);
       ("N1", NodeData "def f(...)" ("[[", "]]"));
       ("N2", NodeData "return x" ("(", ")"));
       ("N3", end_data)],
      [(Some "N0", Some "N1", ""); (Some "N1", Some "N2", "")]).
Proof.
  split; [reflexivity|]. split; [reflexivity|].
  destruct (later_statements_skipped [] 1 [Return (Ok "return x")]
              [Assign (Ok "y = 1")] None state_returned eq_refl)
    as (_ & _ & _ & _ & Htop & _).
  split.
  - apply Htop; [|reflexivity].
    apply Forall_cons. split; [reflexivity|apply Forall_nil_2].
  - destruct (later_statements_skipped
                [("f", FunctionRecord
                         [Return (Ok "return x"); Assign (Ok "y = 1")] [])]
                1 [Return (Ok "return x")] [Assign (Ok "y = 1")] None
                (State [("N0", start_data);
                        ("N1", NodeData "def f(...)" ("[[", "]]"));
                        ("N2", NodeData "return x" ("(", ")"))]
                       [(Some "N0", Some "N1", ""); (Some "N1", Some "N2", "")]
                       3)
                eq_refl)
      as (_ & _ & _ & _ & _ & Hentry).
    exact (Hentry
             [FunctionDef "f" [] [Return (Ok "return x"); Assign (Ok "y = 1")]]
             "f"
             (FunctionRecord [Return (Ok "return x"); Assign (Ok "y = 1")] [])
             [] eq_refl eq_refl eq_refl eq_refl).
Defined.

(** The loop over the body of an inlined call is not one of those
    sequences: it has no test, and after the [return 1] of
    [def f(): return 1 / x = 1], called by [f()], the assignment is still
    visited, from none. *)
Example inlined_body_not_guarded (depth : nat) :
  parse_tree (S (S depth))
    [FunctionDef "f" [] [Return (Ok "return 1"); Assign (Ok "x = 1")];
     Expr (Ok "f()") (Some "f")] =
  Ok ([("N0", NodeData "Start" ("((", "))"));
       ("N1", NodeData "f()" ("[", "]"));
       ("N2", NodeData "return 1" ("(", ")"));
       ("N3", NodeData "x = 1" ("[/", "/]"));
       ("N4", NodeData "End" ("((", "))"))],
      [(Some "N0", Some "N1", "");
       (Some "N1", Some "N2", "");
       (None, Some "N3", "");
       (Some "N3", Some "N4", "")]).
Proof. reflexivity. Qed.

(** ** C10: loop context in an inlined call *)

(** [def f(): break] called in [while c: f()]: the break of the inlined
    body goes from the call-site node [N3] to [N2], the exit of the loop. *)
Example inlined_break_graph (depth : nat) :
  parse_tree (S (S (S depth)))
    [FunctionDef "f" [] [Break]; While (Ok "c") [Expr (Ok "f()") (Some "f")] []] =
  Ok ([("N0", NodeData "Start" ("((", "))"));
       ("N1", NodeData "While c" ("{{", "}}"));
       ("N2", NodeData " " ("((", "))"));
       ("N3", NodeData "f()" ("[", "]"));
       ("N4", NodeData "End" ("((", "))"))],
      [(Some "N0", Some "N1", "");
       (Some "N1", Some "N3", "");
       (Some "N3", Some "N2", "break");
       (Some "N1", Some "N2", "End Loop");
       (Some "N2", Some "N4", "")]).
Proof. reflexivity. Qed.

(** C10. A call of a function of the table (not print or input), whose
    text [ast.unparse] returns, is a call-site node followed by the visit
    of every statement of the callee's body with the caller's
    [loop_start_id] and [loop_exit_id]; so when the body reaches a break
    (or a continue) after statements that leave the running id [cur], and
    the call is made with a loop exit [le] (or loop header [ls]), the edge
    [cur -> le] labelled break (or [cur -> ls] labelled continue) is
    appended, and the rest of the body is visited from none; and a break
    or continue that the body reaches without entering a loop of its own,
    in the body itself, in a branch of a conditional, among the children
    of a generic node or in the body of a further inlined call, to any
    depth, leaves its edge to the caller's exit or header in the edges of
    the call, right after the edges that were there when it was reached. *)
Theorem inlined_call_keeps_loop_context
    (functions : list (string * function_record)) (depth : nat)
    (lbl func_id : string) (fn : function_record) (p ls le : pyid)
    (st : state) :
  is_io_name func_id = false ->
  dict_get func_id functions = Some fn ->
  let call_site := with_node lbl ("[", "]") p st in
  let call_id := Some (node_name (node_counter st)) in
  visit functions (S depth) (Expr (Ok lbl) (Some func_id)) p ls le st =
    for_inlined (fun s last => visit functions depth s last ls le)
      (fn_body fn) call_id call_site /\
  (forall (pre rest : list node) (cur : pyid) (st1 : state),
     fn_body fn = pre ++ Break :: rest ->
     for_inlined (fun s last => visit functions (S depth) s last ls le)
       pre call_id call_site = Ok (cur, st1) ->
     truthy le = true ->
     visit functions (S (S depth)) (Expr (Ok lbl) (Some func_id)) p ls le st =
       for_inlined (fun s last => visit functions (S depth) s last ls le)
         rest None
         (State (nodes st1) (edges st1 ++ [(cur, le, "break")])
                (node_counter st1))) /\
  (forall (pre rest : list node) (cur : pyid) (st1 : state),
     fn_body fn = pre ++ Continue :: rest ->
     for_inlined (fun s last => visit functions (S depth) s last ls le)
       pre call_id call_site = Ok (cur, st1) ->
     truthy ls = true ->
     visit functions (S (S depth)) (Expr (Ok lbl) (Some func_id)) p ls le st =
       for_inlined (fun s last => visit functions (S depth) s last ls le)
         rest None
         (State (nodes st1) (edges st1 ++ [(cur, ls, "continue")])
                (node_counter st1))) /\
  (forall (jump : node) (src : pyid) (st1 : state) (r : pyid) (st' : state),
     is_jump jump = true -> truthy (jump_target ls le jump) = true ->
     reaches functions ls le jump false depth (fn_body fn) call_id call_site
       src st1 ->
     visit functions (S depth) (Expr (Ok lbl) (Some func_id)) p ls le st
       = Ok (r, st') ->
     exists after,
       edges st' = edges st1 ++ jump_edge ls le jump src :: after).
Proof.
  intros Hio Hfn call_site call_id.
  assert (Heq : forall d,
    visit functions (S d) (Expr (Ok lbl) (Some func_id)) p ls le st =
    for_inlined (fun s last => visit functions d s last ls le)
      (fn_body fn) call_id call_site).
  { intros d. simpl. by rewrite Hio, Hfn. }
  split; [apply Heq|]. split; [|split].
  - intros pre rest cur st1 Hbody Hpre Hle.
    rewrite Heq, Hbody, for_inlined_app. unfold bind. rewrite Hpre.
    cbn [for_inlined]. unfold bind. by rewrite visit_Break, Hle.
  - intros pre rest cur st1 Hbody Hpre Hls.
    rewrite Heq, Hbody, for_inlined_app. unfold bind. rewrite Hpre.
    cbn [for_inlined]. unfold bind. by rewrite visit_Continue, Hls.
  - intros jump src st1 r st' Hjump Htarget Hreach. rewrite Heq.
    intros Hrun.
    destruct (reaches_edges_from _ _ _ _ _ _ _ _ _ _ _ Hreach Hjump Htarget
                _ _ Hrun) as [more Hmore].
    exists more. by rewrite Hmore, <- app_assoc.
Qed.

(** [f()] in the body of [while x < 10], for [def f(): break] and for
    [def f(): if c: continue]. *)
Lemma inlined_call_keeps_loop_context_witness :
  is_io_name "f" = false /\
  dict_get "f" [("f", FunctionRecord [Break] [])]
    = Some (FunctionRecord [Break] []) /\
  visit [("f", FunctionRecord [Break] [])] 2 (Expr (Ok "f()") (Some "f"))
        (Some "N1") (Some "N1") (Some "N2") state_in_loop =
  Ok (None,
      State (nodes state_in_loop ++ [("N3", NodeData "f()" ("[", "]"))])
            [(Some "N0", Some "N1", "");
             (Some "N1", Some "N3", "");
             (Some "N3", Some "N2", "break")]
            4) /\
  forall r st',
    visit [("f", FunctionRecord [If (Ok "c") [Continue] []] [])] 3
      (Expr (Ok "f()") (Some "f")) (Some "N1") (Some "N1") (Some "N2")
      state_in_loop = Ok (r, st') ->
    exists after,
      edges st' =
      [(Some "N0", Some "N1", ""); (Some "N1", Some "N3", "");
       (Some "N3", Some "N4", "")] ++
      (Some "N4", Some "N1", "continue") :: after.
Proof.
  split; [reflexivity|]. split; [reflexivity|]. split.
  - destruct (inlined_call_keeps_loop_context
                [("f", FunctionRecord [Break] [])] 0 "f()" "f"
                (FunctionRecord [Break] []) (Some "N1") (Some "N1") (Some "N2")
                state_in_loop eq_refl eq_refl) as (_ & Hbreak & _).
    exact (Hbreak [] [] (Some "N3") _ eq_refl eq_refl eq_refl).
  - intros r st'.
    destruct (inlined_call_keeps_loop_context
                [("f", FunctionRecord [If (Ok "c") [Continue] []] [])] 2
                "f()" "f" (FunctionRecord [If (Ok "c") [Continue] []] [])
                (Some "N1") (Some "N1") (Some "N2") state_in_loop
                eq_refl eq_refl) as (_ & _ & _ & Hnested).
    apply (Hnested Continue (Some "N4")
             (with_node "if c" ("{", "}") (Some "N3")
                (with_node "f()" ("[", "]") (Some "N1") state_in_loop))
             r st' eq_refl eq_refl).
    apply (reaches_if_true _ (Some "N1") (Some "N2") Continue false 1 []
             [] "c" [Continue] [] (Some "N3")
             (with_node "f()" ("[", "]") (Some "N1") state_in_loop)
             (Some "N3")
             (with_node "f()" ("[", "]") (Some "N1") state_in_loop)
             (Some "N4")
             (with_node "if c" ("{", "}") (Some "N3")
                (with_node "f()" ("[", "]") (Some "N1") state_in_loop))
             eq_refl (fun _ => eq_refl)).
    exact (reaches_here _ (Some "N1") (Some "N2") Continue true 0 [] []
             (Some "N4")
             (with_node "if c" ("{", "}") (Some "N3")
                (with_node "f()" ("[", "]") (Some "N1") state_in_loop))
             (Some "N4")
             (with_node "if c" ("{", "}") (Some "N3")
                (with_node "f()" ("[", "]") (Some "N1") state_in_loop))
             eq_refl (fun _ => eq_refl)).
Defined.

(** * Further properties *)

(** ** Edges and nodes of a graph that was built *)

Lemma named_below_key (c : nat) (x : pyid) (ns : list (string * node_data)) :
  dict_keys ns = map node_name (seq 0 c) ->
  named_below c x -> exists k, x = Some k /\ is_Some (dict_get k ns).
Proof.
  intros Hkeys (j & Hj & ->). exists (node_name j). split; [done|].
  apply dict_get_Some_keys. rewrite Hkeys.
  apply list_elem_of_fmap. exists j. split; [done|].
  apply elem_of_seq. lia.
Qed.

(** X1. In every graph that is built, every edge ends at a node of the
    graph, and starts at a node of the graph unless its source is [None]. *)
Theorem edges_reference_nodes (depth : nat) (tree_body : list node)
    (ns : list (string * node_data)) (es : list edge) :
  parse_tree depth tree_body = Ok (ns, es) ->
  Forall (fun e : edge =>
            (e.1.1 = None \/
             exists k, e.1.1 = Some k /\ is_Some (dict_get k ns)) /\
            exists k, e.1.2 = Some k /\ is_Some (dict_get k ns)) es.
Proof.
  intros (last & st & _ & Hwf & Hext & Hlast & Hg)%parse_tree_inv.
  unfold finished in Hg. injection Hg as -> ->.
  assert (Hkeys : dict_keys (nodes st ++
                    [(node_name (node_counter st), end_data)])
                  = map node_name (seq 0 (S (node_counter st)))).
  { unfold wf_state, dict_keys in *.
    by rewrite map_app, Hwf, seq_S, map_app. }
  assert (Hok : forall e : edge, edge_ok (S (node_counter st)) e ->
    (e.1.1 = None \/
     exists k, e.1.1 = Some k /\
       is_Some (dict_get k (nodes st ++
                  [(node_name (node_counter st), end_data)]))) /\
    exists k, e.1.2 = Some k /\
      is_Some (dict_get k (nodes st ++
                 [(node_name (node_counter st), end_data)]))).
  { intros e [[Hs|Hs] Ht]; (split; [|by eapply named_below_key]).
    - by left.
    - right. by eapply named_below_key. }
  assert (Hedges : Forall (edge_ok (S (node_counter st))) (edges st)).
  { destruct Hext as [_ _ (added & Hes & Hadded)]. simpl in Hes. rewrite Hes.
    eapply Forall_impl; [exact Hadded|]. intros e. apply edge_ok_mono. lia. }
  destruct (truthy last) eqn:Htruthy.
  - apply Forall_app. split; [by eapply Forall_impl|].
    apply Forall_singleton, Hok. split; simpl.
    + right. eapply named_below_mono; [|by apply bounded_truthy]. lia.
    + apply named_below_fresh.
  - by eapply Forall_impl.
Qed.

(** X2. A visit from a well-formed state, with a predecessor and a loop
    context that are none or existing nodes, only appends: the nodes and
    the edges it finds stay where they are, unchanged, the new state is
    well formed, and the id it returns is none or an existing node. *)
Theorem visit_only_appends (functions : list (string * function_record))
    (depth : nat) (n : node) (p ls le r : pyid) (st st' : state) :
  wf_state st ->
  bounded (node_counter st) p ->
  bounded (node_counter st) ls ->
  bounded (node_counter st) le ->
  visit functions depth n p ls le st = Ok (r, st') ->
  wf_state st' /\
  node_counter st <= node_counter st' /\
  (exists added, nodes st' = nodes st ++ added /\
                 length added = node_counter st' - node_counter st) /\
  (exists added, edges st' = edges st ++ added) /\
  bounded (node_counter st') r.
Proof.
  intros Hwf Hp Hls Hle Hvisit.
  destruct (visit_ok functions depth (node_counter st) ls le Hls Hle n p st
              (le_n _) Hwf Hp r st' Hvisit) as (Hwf' & Hext & Hr).
  destruct Hext as [Hc (ns & Hns & _) (es & Hes & _)].
  split; [done|]. split; [done|]. split; [|split; [by exists es|done]].
  exists ns. split; [done|].
  unfold wf_state, dict_keys in Hwf, Hwf'.
  apply (f_equal length) in Hwf, Hwf'.
  rewrite !length_map, !length_seq in Hwf, Hwf'.
  rewrite Hns, length_app in Hwf'. lia.
Qed.

Lemma visit_only_appends_witness :
  wf_state state_in_loop /\
  bounded 3 (Some "N1") /\ bounded 3 (Some "N2") /\
  visit [] 1 Break (Some "N1") (Some "N1") (Some "N2") state_in_loop =
    Ok (None,
        State (nodes state_in_loop)
              (edges state_in_loop ++ [(Some "N1", Some "N2", "break")]) 3) /\
  bounded 3 None.
Proof.
  assert (H1 : bounded 3 (Some "N1")) by (right; exists 1; split; [lia|done]).
  assert (H2 : bounded 3 (Some "N2")) by (right; exists 2; split; [lia|done]).
  split; [reflexivity|]. split; [exact H1|]. split; [exact H2|].
  split; [reflexivity|].
  exact (proj2 (proj2 (proj2 (proj2
    (visit_only_appends [] 1 Break (Some "N1") (Some "N1") (Some "N2") None
       state_in_loop _ eq_refl H1 H1 H2 eq_refl))))).
Defined.

Lemma edges_reference_nodes_witness :
  parse_tree 2 if_else_program = Ok (if_else_nodes, if_else_edges) /\
  Forall (fun e : edge =>
            (e.1.1 = None \/
             exists k, e.1.1 = Some k /\ is_Some (dict_get k if_else_nodes)) /\
            exists k, e.1.2 = Some k /\ is_Some (dict_get k if_else_nodes))
    if_else_edges.
Proof.
  split; [reflexivity|].
  exact (edges_reference_nodes 2 if_else_program if_else_nodes if_else_edges
           eq_refl).
Defined.

(** ** Invariants of the builder *)

(** *** Shapes and labels *)

Lemma Forall_dict_set {V : Type} (P : string * V -> Prop) (k : string) (v : V)
    (d : list (string * V)) :
  (forall k', P (k', v)) -> Forall P d -> Forall P (dict_set k v d).
Proof.
  intros Hv. induction 1 as [|[k' v'] d Hx Hd IH]; simpl.
  - by apply Forall_singleton.
  - destruct (String.eqb k' k); apply Forall_cons; auto.
Qed.

Lemma vocabulary_add_node (lbl : string) (shp : string * string) :
  shp ∈ shape_catalog -> keeps in_vocabulary (add_node lbl shp).
Proof.
  intros Hshp st id st' [Hn He]. rewrite add_node_eq. intros [= <- <-].
  split; [|done]. simpl. by apply Forall_dict_set.
Qed.

Lemma vocabulary_edges_append (src tgt : pyid) (lbl : string) :
  lbl ∈ edge_labels -> keeps in_vocabulary (edges_append (src, tgt, lbl)).
Proof.
  intros Hlbl st u st' [Hn He] [= <- <-]. split; [done|]. simpl.
  apply Forall_app. split; [done|]. by apply Forall_singleton.
Qed.

Ltac in_list := apply list_elem_of_In; simpl; tauto.

Ltac vocabulary_steps IH :=
  repeat first
    [ apply keeps_ret
    | apply keeps_unparse
    | apply IH
    | apply vocabulary_add_node; in_list
    | apply vocabulary_edges_append; in_list
    | apply keeps_for_guarded; intros; apply IH
    | apply keeps_for_inlined; intros; apply IH
    | apply keeps_bind; [|intros ?]
    | match goal with
      | |- keeps _ (if ?b then _ else _) => destruct b
      | |- keeps _ (match ?x with _ => _ end) => destruct x
      end ].

Lemma vocabulary_visit (functions : list (string * function_record))
    (depth : nat) (n : node) (p ls le : pyid) :
  keeps in_vocabulary (visit functions depth n p ls le).
Proof.
  revert n p ls le. induction depth as [|depth IH]; intros n p ls le.
  { apply hoare_raise. }
  destruct n; simpl; vocabulary_steps IH.
Qed.

Lemma vocabulary_build (depth : nat) (tree_body : list node) :
  keeps in_vocabulary (build depth tree_body).
Proof.
  unfold build, build_body.
  vocabulary_steps vocabulary_visit.
  apply hoare_raise.
Qed.

(** X3. In every graph that is built, every node has one of the seven
    delimiter pairs of the catalog and every edge has one of the seven
    labels of the vocabulary. *)
Theorem shapes_and_labels (depth : nat) (tree_body : list node)
    (ns : list (string * node_data)) (es : list edge) :
  parse_tree depth tree_body = Ok (ns, es) ->
  Forall (fun entry => shape entry.2 ∈ shape_catalog) ns /\
  Forall (fun e : edge => e.2 ∈ edge_labels) es.
Proof.
  unfold parse_tree.
  destruct (build depth tree_body initial_state) as [[u st]|e] eqn:Hbuild;
    [|done].
  intros [= <- <-].
  apply (vocabulary_build depth tree_body initial_state u st); [|done].
  split; apply Forall_nil_2.
Qed.

Lemma shapes_and_labels_witness :
  parse_tree 2 if_else_program = Ok (if_else_nodes, if_else_edges) /\
  Forall (fun entry => shape entry.2 ∈ shape_catalog) if_else_nodes /\
  Forall (fun e : edge => e.2 ∈ edge_labels) if_else_edges.
Proof.
  split; [reflexivity|].
  exact (shapes_and_labels 2 if_else_program if_else_nodes if_else_edges
           eq_refl).
Defined.

(** *** Sources of the edges, without inlined call *)

Lemma sources_add_node_bind {B : Type} (lbl : string) (shp : string * string)
    (k : string -> M B) :
  (forall c, keeps has_sources (k (node_name c))) ->
  keeps has_sources (bind (add_node lbl shp) k).
Proof.
  intros Hk st b st' Hsrc. unfold bind at 1. rewrite add_node_eq.
  apply Hk. exact Hsrc.
Qed.

Lemma sources_edges_append (src tgt : pyid) (lbl : string) :
  truthy src = true -> keeps has_sources (edges_append (src, tgt, lbl)).
Proof.
  intros Hsrc st u st' Hes [= <- <-]. unfold has_sources; simpl.
  apply Forall_app. split; [done|]. by apply Forall_singleton.
Qed.

Ltac sources_steps IH :=
  repeat first
    [ apply keeps_ret
    | apply keeps_unparse
    | apply IH; first [assumption|reflexivity]
    | apply sources_add_node_bind; intros ?
    | apply sources_edges_append; first [assumption|reflexivity]
    | apply keeps_for_guarded; intros
    | apply keeps_bind; [|intros ?]
    | match goal with
      | |- keeps _ (if negb (truthy ?x) && negb (truthy ?y) then _ else _) =>
          destruct (truthy x) eqn:?, (truthy y) eqn:?; simpl
      | |- keeps _ (if truthy ?x then _ else _) => destruct (truthy x) eqn:?
      | |- keeps _ (if ?b then _ else _) => destruct b
      | |- keeps _ (match ?x with _ => _ end) => destruct x
      end ].

Lemma sources_visit (depth : nat) (n : node) (p ls le : pyid) :
  truthy p = true -> keeps has_sources (visit [] depth n p ls le).
Proof.
  revert n p ls le. induction depth as [|depth IH]; intros n p ls le Hp.
  { apply hoare_raise. }
  destruct n; simpl; rewrite ?Hp; sources_steps IH.
Qed.

Lemma edge_line_nonempty (e : edge) :
  truthy e.1.1 = true -> truthy e.1.2 = true -> edge_line e <> "".
Proof.
  destruct e as [[[[|? ?]|] [[|? ?]|]] [|? ?]]; simpl; try done.
Qed.

(** X4. In the graph of a program without top-level function definition
    every edge has a source and a target, so the serializer writes a line
    for each of them: none is dropped. *)
Theorem every_edge_is_rendered (depth : nat) (tree_body : list node)
    (ns : list (string * node_data)) (es : list edge) :
  Forall (fun n => is_FunctionDef n = false) tree_body ->
  parse_tree depth tree_body = Ok (ns, es) ->
  Forall (fun e : edge =>
            truthy e.1.1 = true /\ truthy e.1.2 = true /\ edge_line e <> "")
    es.
Proof.
  intros Hdefs Hparse.
  assert (Htgt : Forall (fun e : edge => truthy e.1.2 = true) es).
  { apply parse_tree_inv in Hparse as (last & st & _ & _ & Hext & _ & Hg).
    unfold finished in Hg. injection Hg as _ ->.
    assert (Hedges : Forall (fun e : edge => truthy e.1.2 = true) (edges st)).
    { destruct Hext as [_ _ (added & -> & Hadded)]. simpl.
      eapply Forall_impl; [exact Hadded|].
      by intros [[src tgt] lbl] [_ (k & _ & ->)]. }
    destruct (truthy last); [|done].
    apply Forall_app. split; [done|]. by apply Forall_singleton. }
  assert (Hsrc : Forall (fun e : edge => truthy e.1.1 = true) es).
  { revert Hparse. unfold parse_tree.
    destruct (build depth tree_body initial_state) as [[u st]|e] eqn:Hbuild;
      [|done].
    intros [= <- <-].
    assert (Hkeeps : keeps has_sources (build depth tree_body)).
    { unfold build, build_body.
      rewrite (collect_functions_no_defs _ _ Hdefs).
      apply keeps_bind; [|intros last; sources_steps sources_visit].
      apply sources_add_node_bind; intros c.
      destruct (main_body_of tree_body); sources_steps sources_visit. }
    apply (Hkeeps initial_state u st); [apply Forall_nil_2|done]. }
  apply Forall_forall. intros e He.
  rewrite Forall_forall in Htgt, Hsrc.
  split; [by apply Hsrc|]. split; [by apply Htgt|].
  apply edge_line_nonempty; auto.
Qed.

Lemma every_edge_is_rendered_witness :
  Forall (fun n => is_FunctionDef n = false) if_else_program /\
  parse_tree 2 if_else_program = Ok (if_else_nodes, if_else_edges) /\
  Forall (fun e : edge =>
            truthy e.1.1 = true /\ truthy e.1.2 = true /\ edge_line e <> "")
    if_else_edges.
Proof.
  assert (Hdefs : Forall (fun n => is_FunctionDef n = false) if_else_program).
  { apply Forall_cons. split; [reflexivity|apply Forall_nil_2]. }
  split; [exact Hdefs|]. split; [reflexivity|].
  exact (every_edge_is_rendered 2 if_else_program if_else_nodes if_else_edges
           Hdefs eq_refl).
Defined.

(** ** The recursion limit *)

Lemma refines_refl {A : Type} (m : M A) : refines m m.
Proof. by intros st r. Qed.

Lemma refines_bind {A B : Type} (m m' : M A) (k k' : A -> M B) :
  refines m m' -> (forall a, refines (k a) (k' a)) ->
  refines (bind m k) (bind m' k').
Proof.
  intros Hm Hk st [b st'] (a & st1 & H1 & H2)%bind_Ok.
  apply bind_Ok. exists a, st1. split; [by apply Hm|by apply Hk].
Qed.

Lemma refines_for_guarded (v v' : node -> pyid -> M pyid) (body : list node)
    (cur : pyid) :
  (forall n p, refines (v n p) (v' n p)) ->
  refines (for_guarded v body cur) (for_guarded v' body cur).
Proof.
  intros Hv. revert cur. induction body as [|child rest IH]; intros cur; simpl.
  - apply refines_refl.
  - apply refines_bind; [|exact IH].
    destruct (truthy cur); [apply Hv|apply refines_refl].
Qed.

Lemma refines_for_inlined (v v' : node -> pyid -> M pyid) (body : list node)
    (cur : pyid) :
  (forall n p, refines (v n p) (v' n p)) ->
  refines (for_inlined v body cur) (for_inlined v' body cur).
Proof.
  intros Hv. revert cur. induction body as [|child rest IH]; intros cur; simpl.
  - apply refines_refl.
  - by apply refines_bind.
Qed.

Ltac refines_steps IH :=
  repeat first
    [ apply refines_refl
    | apply IH
    | apply refines_for_guarded; intros
    | apply refines_for_inlined; intros
    | apply refines_bind; [|intros ?]
    | match goal with
      | |- refines (if ?b then _ else _) _ => destruct b
      | |- refines (match ?x with _ => _ end) _ => destruct x
      end ].

Lemma visit_refines_S (functions : list (string * function_record))
    (depth : nat) (n : node) (p ls le : pyid) :
  refines (visit functions depth n p ls le)
          (visit functions (S depth) n p ls le).
Proof.
  revert n p ls le. induction depth as [|depth IH]; intros n p ls le.
  { intros st r Hraise. discriminate Hraise. }
  destruct n; cbn [visit iter_child_nodes]; refines_steps IH.
Qed.

Lemma visit_refines_le (functions : list (string * function_record))
    (depth depth' : nat) (n : node) (p ls le : pyid) :
  depth <= depth' ->
  refines (visit functions depth n p ls le)
          (visit functions depth' n p ls le).
Proof.
  induction 1 as [|depth' _ IH]; [apply refines_refl|].
  intros st r Hv. by apply visit_refines_S, IH.
Qed.

(** X5. A larger recursion limit never changes a graph that was built:
    when the build returns a graph with [depth] nested visits allowed, it
    returns the same graph with any larger number. *)
Theorem parse_tree_depth_mono (depth depth' : nat) (tree_body : list node)
    (g : list (string * node_data) * list edge) :
  depth <= depth' ->
  parse_tree depth tree_body = Ok g -> parse_tree depth' tree_body = Ok g.
Proof.
  intros Hle. unfold parse_tree.
  assert (Hbuild : refines (build depth tree_body) (build depth' tree_body)).
  { unfold build, build_body.
    refines_steps (fun fs n p =>
      visit_refines_le fs depth depth' n p None None Hle). }
  destruct (build depth tree_body initial_state) as [[u st]|e] eqn:Hb; [|done].
  by rewrite (Hbuild _ _ Hb).
Qed.

Lemma parse_tree_depth_mono_witness :
  2 <= 1000 /\
  parse_tree 2 if_else_program = Ok (if_else_nodes, if_else_edges) /\
  parse_tree 1000 if_else_program = Ok (if_else_nodes, if_else_edges).
Proof.
  split; [lia|]. split; [reflexivity|].
  apply (parse_tree_depth_mono 2 1000); [lia|reflexivity].
Defined.

(** ** Subtrees without statement *)

Lemma height_child (c : node) (children : list node) :
  c ∈ children -> height c < height (Other children).
Proof.
  simpl. induction 1 as [c l|c c' l _ IH]; simpl; lia.
Qed.

Lemma for_guarded_same (v : node -> pyid -> M pyid) (body : list node)
    (p : pyid) (st : state) :
  (forall c, c ∈ body -> v c p st = Ok (p, st)) ->
  for_guarded v body p st = Ok (p, st).
Proof.
  induction body as [|child rest IH]; intros Hv; simpl; [done|].
  unfold bind.
  assert ((if truthy p then v child p else ret p) st = Ok (p, st)) as ->.
  { destruct (truthy p); [|done]. apply Hv, elem_of_cons. by left. }
  apply IH. intros c Hc. apply Hv, elem_of_cons. by right.
Qed.

(** X6. A subtree that holds no statement [visit] has a branch for
    ([pass], an expression tree, the argument list of a definition) adds
    nothing and passes the predecessor on, as soon as the recursion limit
    covers its height. *)
Theorem statement_free_is_skipped
    (functions : list (string * function_record)) (depth : nat) (n : node)
    (p ls le : pyid) (st : state) :
  statement_free n = true -> height n <= depth ->
  visit functions depth n p ls le st = Ok (p, st).
Proof.
  revert n. induction depth as [|depth IH]; intros n Hfree Hheight.
  { destruct n; try discriminate Hfree. simpl in Hheight. lia. }
  destruct n as [| | | | | | | | | |children]; try discriminate Hfree.
  cbn [visit iter_child_nodes]. apply for_guarded_same. intros c Hc.
  apply IH.
  - simpl in Hfree. rewrite forallb_forall in Hfree.
    by apply Hfree, list_elem_of_In.
  - pose proof (height_child c children Hc). lia.
Qed.

Lemma statement_free_is_skipped_witness :
  statement_free (Other [Other []; Other [Other []]]) = true /\
  height (Other [Other []; Other [Other []]]) <= 3 /\
  visit [] 3 (Other [Other []; Other [Other []]]) (Some "N0") None None
        after_start = Ok (Some "N0", after_start).
Proof.
  split; [reflexivity|]. split; [simpl; lia|].
  apply statement_free_is_skipped; [reflexivity|simpl; lia].
Defined.

(** ** Straight-line programs *)

Lemma visit_simple (depth c : nat) (n : node) (cur : pyid)
    (ns : list (string * node_data)) (es : list edge) :
  is_simple n = true -> wf_state (State ns es c) ->
  visit [] (S depth) n cur None None (State ns es c) =
  Ok (Some (node_name c),
      State (ns ++ [(node_name c, simple_data n)])
            (es ++ [(cur, Some (node_name c), "")]) (S c)).
Proof.
  intros Hsimple Hwf.
  assert (Hplain : forall lbl shp,
    (current_id <- add_node lbl shp ;;
     edges_append (cur, Some current_id, "") ;;;
     ret (Some current_id)) (State ns es c) =
    Ok (Some (node_name c),
        State (ns ++ [(node_name c, NodeData lbl shp)])
              (es ++ [(cur, Some (node_name c), "")]) (S c))).
  { intros lbl shp. unfold bind at 1. by rewrite add_node_wf. }
  destruct n as [[lbl|e]|[lbl|e]|[lbl|e] callee| | | | | | | |];
    try discriminate Hsimple; simpl.
  - exact (Hplain _ _).
  - exact (Hplain _ _).
  - destruct callee as [func_id|]; [|exact (Hplain _ _)].
    unfold bind at 1. cbn [ast_unparse ret].
    destruct (is_io_name func_id); exact (Hplain _ _).
Qed.

Lemma for_guarded_simple (depth : nat) (stmts : list node) :
  Forall (fun n => is_simple n = true) stmts ->
  forall (c : nat) (cur : pyid) (ns : list (string * node_data))
         (es : list edge),
    truthy cur = true -> wf_state (State ns es c) ->
    for_guarded (fun n cur => visit [] (S depth) n cur None None) stmts cur
      (State ns es c) =
    Ok (match stmts with
        | [] => cur
        | _ => Some (node_name (c + length stmts - 1))
        end,
        State (ns ++ imap (fun i n => (node_name (c + i), simple_data n)) stmts)
              (es ++ chain_edges cur c (length stmts))
              (c + length stmts)).
Proof.
  induction 1 as [|n rest Hn Hrest IH]; intros c cur ns es Hcur Hwf.
  - simpl. by rewrite !app_nil_r, Nat.add_0_r.
  - cbn [for_guarded]. unfold bind. rewrite Hcur.
    rewrite visit_simple by done.
    rewrite (IH (S c) (Some (node_name c)));
      [|done|eapply wf_state_snoc; exact Hwf].
    f_equal. f_equal.
    + destruct rest; simpl; do 2 f_equal; lia.
    + f_equal.
      * rewrite imap_cons, <- app_assoc. simpl. rewrite Nat.add_0_r.
        do 2 f_equal. apply imap_ext. intros i x _. simpl.
        by rewrite Nat.add_succ_r.
      * rewrite <- app_assoc. f_equal. simpl. f_equal.
        destruct (length rest) as [|l]; simpl; [done|].
        by rewrite <- seq_shift, map_map.
      * simpl. lia.
Qed.

Lemma simple_no_defs (stmts : list node) :
  Forall (fun n => is_simple n = true) stmts ->
  Forall (fun n => is_FunctionDef n = false) stmts.
Proof.
  intros Hsimple. eapply Forall_impl; [exact Hsimple|].
  intros n Hn. by destruct n.
Qed.

(** X7. A program made of [n] assignments and expression statements whose
    text [ast.unparse] returns, with no function definition, gives the
    chain Start, one node per statement in order, End: [n + 2] nodes, and the [n + 1] unlabelled edges from each
    node to the next.  An assignment, a print or an input call has the
    delimiters [[/] and [/]], any other expression statement [[] and []]. *)
Theorem straight_line_chain (depth : nat) (stmts : list node) :
  Forall (fun n => is_simple n = true) stmts ->
  parse_tree (S depth) stmts =
  Ok ((node_name 0, start_data) ::
      imap (fun i n => (node_name (S i), simple_data n)) stmts ++
      [(node_name (S (length stmts)), end_data)],
      map (fun i => (Some (node_name i), Some (node_name (S i)), ""))
          (seq 0 (S (length stmts)))).
Proof.
  intros Hsimple. pose proof (simple_no_defs _ Hsimple) as Hdefs.
  assert (Hbody : build_body (S depth) stmts initial_state =
    Ok (match stmts with
        | [] => Some (node_name 0)
        | _ => Some (node_name (1 + length stmts - 1))
        end,
        State ([(node_name 0, start_data)] ++
               imap (fun i n => (node_name (1 + i), simple_data n)) stmts)
              ([] ++ chain_edges (Some (node_name 0)) 1 (length stmts))
              (1 + length stmts))).
  { rewrite build_body_eq. unfold entry_statements.
    rewrite (collect_functions_no_defs _ _ Hdefs).
    rewrite (main_body_of_no_defs _ Hdefs).
    rewrite <- (for_guarded_simple depth stmts Hsimple 1 (Some (node_name 0))
                  [(node_name 0, start_data)] [] eq_refl wf_after_start).
    by destruct stmts. }
  rewrite (parse_tree_finished _ _ _ _ Hbody). unfold finished.
  cbn [nodes edges node_counter app]. f_equal. f_equal.
  destruct stmts as [|n rest]; [done|].
  rewrite node_name_truthy. cbn [length chain_edges].
  replace (1 + S (length rest) - 1) with (S (length rest)) by lia.
  rewrite (seq_S (S (length rest))), map_app. simpl.
  by rewrite <- seq_shift, map_map.
Qed.

Lemma straight_line_chain_witness :
  Forall (fun n => is_simple n = true)
    [Assign (Ok "x = 1"); Expr (Ok "print(x)") (Some "print"); Expr (Ok "x") None] /\
  parse_tree 1 [Assign (Ok "x = 1"); Expr (Ok "print(x)") (Some "print"); Expr (Ok "x") None] =
  Ok ([("N0", start_data);
       ("N1", NodeData "x = 1" ("[/", "/]"));
       ("N2", NodeData "print(x)" ("[/", "/]"));
       ("N3", NodeData "x" ("[", "]"));
       ("N4", end_data)],
      [(Some "N0", Some "N1", ""); (Some "N1", Some "N2", "");
       (Some "N2", Some "N3", ""); (Some "N3", Some "N4", "")]).
Proof.
  assert (Hsimple : Forall (fun n => is_simple n = true)
    [Assign (Ok "x = 1"); Expr (Ok "print(x)") (Some "print"); Expr (Ok "x") None]).
  { repeat (apply Forall_cons; split; [reflexivity|]). apply Forall_nil_2. }
  split; [exact Hsimple|].
  exact (straight_line_chain 0 _ Hsimple).
Defined.

(** ** The function table *)

Lemma collect_functions_get (name : string) (tree_body : list node)
    (fs : list (string * function_record)) :
  dict_get name (collect_functions tree_body fs) =
  match last_def name tree_body with
  | Some fn => Some fn
  | None => dict_get name fs
  end.
Proof.
  revert fs. induction tree_body as [|n rest IH]; intros fs; [done|].
  assert (Hother : is_FunctionDef n = false ->
    dict_get name (collect_functions (n :: rest) fs) =
    match last_def name (n :: rest) with
    | Some fn => Some fn
    | None => dict_get name fs
    end).
  { intros Hn. destruct n; try discriminate Hn; simpl; rewrite IH;
      by destruct (last_def name rest). }
  destruct n as [| | | | | | | | |name' args body|]; try by apply Hother.
  simpl. rewrite IH. destruct (last_def name rest); [done|].
  destruct (String.eqb_spec name' name) as [->|Hne].
  - apply dict_get_set_eq.
  - by apply dict_get_set_ne.
Qed.

Lemma collect_functions_keys (tree_body : list node)
    (fs : list (string * function_record)) :
  NoDup (dict_keys fs) ->
  NoDup (dict_keys (collect_functions tree_body fs)) /\
  (forall name, name ∈ dict_keys (collect_functions tree_body fs) <->
                name ∈ dict_keys fs \/ name ∈ def_names tree_body) /\
  head (dict_keys (collect_functions tree_body fs)) =
    match dict_keys fs with
    | k :: _ => Some k
    | [] => head (def_names tree_body)
    end.
Proof.
  revert fs. induction tree_body as [|n rest IH]; intros fs Hnodup.
  { simpl. split; [done|]. split; [|by destruct (dict_keys fs)].
    intros name. rewrite elem_of_nil. split; [by left|by intros [?|[]]]. }
  assert (Hother : is_FunctionDef n = false ->
    NoDup (dict_keys (collect_functions (n :: rest) fs)) /\
    (forall name, name ∈ dict_keys (collect_functions (n :: rest) fs) <->
                  name ∈ dict_keys fs \/ name ∈ def_names (n :: rest)) /\
    head (dict_keys (collect_functions (n :: rest) fs)) =
      match dict_keys fs with
      | k :: _ => Some k
      | [] => head (def_names (n :: rest))
      end).
  { intros Hn. destruct n; try discriminate Hn; by apply IH. }
  destruct n as [| | | | | | | | |name' args body|]; try by apply Hother.
  simpl.
  assert (Hset : NoDup (dict_keys (dict_set name' (FunctionRecord body args) fs))).
  { rewrite dict_keys_set. case_bool_decide as Hin; [done|].
    apply NoDup_app. split; [done|]. split; [|apply NoDup_singleton].
    intros k Hk Hk'. apply list_elem_of_singleton in Hk' as ->. done. }
  destruct (IH _ Hset) as (Hnd & Hmem & Hhead). split; [done|]. split.
  - intros name. rewrite Hmem, dict_keys_set, elem_of_cons.
    case_bool_decide as Hin.
    + split; [intros [?|?]; auto|intros [?|[->|?]]; auto].
    + rewrite elem_of_app, list_elem_of_singleton.
      split; [intros [[?|?]|?]; auto|intros [?|[?|?]]; auto].
  - rewrite Hhead, dict_keys_set. case_bool_decide as Hin.
    + destruct (dict_keys fs); [by apply elem_of_nil in Hin|done].
    + by destruct (dict_keys fs).
Qed.

(** X8. Looking a name up in the function table gives the last top-level
    definition of that name in the program, wherever it stands, and nothing
    when the program defines no function of that name. *)
Theorem function_table_lookup (name : string) (tree_body : list node) :
  dict_get name (collect_functions tree_body []) = last_def name tree_body /\
  (is_Some (dict_get name (collect_functions tree_body [])) <->
   name ∈ def_names tree_body).
Proof.
  split.
  - rewrite collect_functions_get. by destruct (last_def name tree_body).
  - rewrite <- dict_get_Some_keys.
    destruct (collect_functions_keys tree_body [] (NoDup_nil_2 (A:=string)))
      as (_ & Hmem & _).
    rewrite Hmem. simpl. rewrite elem_of_nil.
    split; [by intros [[]|?]|by right].
Qed.

(** X9. The keys of the function table are the names the program defines,
    each once, and the first key is the name of the first definition in
    source order. *)
Theorem function_table_keys (tree_body : list node) :
  NoDup (dict_keys (collect_functions tree_body [])) /\
  (forall name, name ∈ dict_keys (collect_functions tree_body []) <->
                name ∈ def_names tree_body) /\
  head (dict_keys (collect_functions tree_body [])) =
    head (def_names tree_body).
Proof.
  destruct (collect_functions_keys tree_body [] (NoDup_nil_2 (A:=string)))
    as (Hnd & Hmem & Hhead).
  split; [done|]. split; [|done].
  intros name. rewrite Hmem. simpl. rewrite elem_of_nil.
  split; [by intros [[]|?]|by right].
Qed.

(** X10. A program that holds function definitions only starts, after
    Start, with the node [def f(...)] for the first name [f] it defines,
    and goes on with the body of the last definition of [f]: when [f] is
    defined again further down, that later body is the one drawn. *)
Theorem implicit_entry_point (depth : nat) (tree_body : list node)
    (name : string) (others : list string) :
  main_body_of tree_body = [] ->
  def_names tree_body = name :: others ->
  exists fn,
    last_def name tree_body = Some fn /\
    build_body depth tree_body initial_state =
    for_guarded
      (fun n cur =>
         visit (collect_functions tree_body []) depth n cur None None)
      (fn_body fn) (Some (node_name 1))
      (State [(node_name 0, start_data);
              (node_name 1, NodeData ("def " +:+ name +:+ "(...)") ("[[", "]]"))]
             [(Some (node_name 0), Some (node_name 1), "")]
             2).
Proof.
  intros Hmain Hnames.
  destruct (collect_functions_keys tree_body [] (NoDup_nil_2 (A:=string)))
    as (_ & _ & Hhead).
  simpl in Hhead. rewrite Hnames in Hhead. simpl in Hhead.
  pose proof (collect_functions_get name tree_body []) as Hget.
  rewrite build_body_eq. unfold entry_statements. rewrite Hmain.
  destruct (collect_functions tree_body []) as [|[k fr] fs] eqn:Hfs;
    [discriminate Hhead|].
  injection Hhead as ->.
  destruct (last_def name tree_body) as [fn|] eqn:Hlast.
  - exists fn. split; [done|]. rewrite Hget.
    unfold bind at 1. rewrite add_node_wf by exact wf_after_start.
    reflexivity.
  - simpl in Hget. by rewrite String.eqb_refl in Hget.
Qed.

Lemma implicit_entry_point_witness :
  main_body_of [FunctionDef "f" [] [Assign (Ok "x = 1")];
                FunctionDef "g" [] [Return (Ok "return 2")];
                FunctionDef "f" [] [Assign (Ok "x = 3")]] = [] /\
  parse_tree 1 [FunctionDef "f" [] [Assign (Ok "x = 1")];
                FunctionDef "g" [] [Return (Ok "return 2")];
                FunctionDef "f" [] [Assign (Ok "x = 3")]] =
  Ok ([("N0", start_data);
       ("N1", NodeData "def f(...)" ("[[", "]]"));
       ("N2", NodeData "x = 3" ("[/", "/]"));
       ("N3", end_data)],
      [(Some "N0", Some "N1", ""); (Some "N1", Some "N2", "");
       (Some "N2", Some "N3", "")]).
Proof.
  split; [reflexivity|].
  destruct (implicit_entry_point 1
              [FunctionDef "f" [] [Assign (Ok "x = 1")];
               FunctionDef "g" [] [Return (Ok "return 2")];
               FunctionDef "f" [] [Assign (Ok "x = 3")]] "f" ["g"; "f"]
              eq_refl eq_refl) as (fn & Hlast & Hbody).
  injection Hlast as <-.
  exact (parse_tree_finished 1 _ _ _ Hbody).
Defined.

(** ** The serializer *)

Lemma count_char_app (c : Ascii.ascii) (s1 s2 : string) :
  count_char c (s1 +:+ s2) = count_char c s1 + count_char c s2.
Proof.
  induction s1 as [|c' s1 IH]; simpl; [done|]. rewrite IH. lia.
Qed.

Lemma string_length_app (s1 s2 : string) :
  String.length (s1 +:+ s2) = String.length s1 + String.length s2.
Proof. induction s1 as [|c s1 IH]; simpl; [done|]. by rewrite IH. Qed.

Lemma replace_quote_no_quote (s : string) :
  count_char DQUOTE (replace_quote s) = 0.
Proof.
  induction s as [|c s IH]; simpl; [done|].
  destruct (Ascii.eqb c DQUOTE) eqn:Hc.
  - by rewrite count_char_app, IH.
  - simpl. by rewrite Hc.
Qed.

(** X11. Escaping a label leaves no double quote in it, and makes it
    longer by five characters for each double quote it held. *)
Theorem replace_quote_escapes (s : string) :
  count_char DQUOTE (replace_quote s) = 0 /\
  String.length (replace_quote s) =
    String.length s + 5 * count_char DQUOTE s.
Proof.
  split; [apply replace_quote_no_quote|].
  induction s as [|c s IH]; simpl; [done|].
  destruct (Ascii.eqb c DQUOTE).
  - rewrite string_length_app, IH. simpl. lia.
  - simpl. rewrite IH. lia.
Qed.

(** X12. A label without double quote is written as it is. *)
Theorem replace_quote_without_quote (s : string) :
  count_char DQUOTE s = 0 -> replace_quote s = s.
Proof.
  induction s as [|c s IH]; simpl; [done|].
  destruct (Ascii.eqb c DQUOTE); [done|].
  intros Hs. by rewrite IH.
Qed.

Lemma replace_quote_without_quote_witness :
  count_char DQUOTE "x = 1" = 0 /\ replace_quote "x = 1" = "x = 1".
Proof.
  split; [reflexivity|]. by apply replace_quote_without_quote.
Defined.

Lemma pretty_N_go_no_quote (x : N) (s : string) :
  count_char DQUOTE s = 0 -> count_char DQUOTE (pretty_N_go x s) = 0.
Proof.
  revert s. induction (N.lt_wf_0 x) as [x _ IH]; intros s Hs.
  destruct (decide (x = 0)%N) as [->|Hx]; [by rewrite pretty_N_go_0|].
  rewrite pretty_N_go_step by lia. apply IH.
  - apply N.div_lt; lia.
  - simpl. rewrite Hs. unfold pretty_N_char. by repeat case_match.
Qed.

Lemma node_name_no_quote (k : nat) : count_char DQUOTE (node_name k) = 0.
Proof.
  rewrite node_name_cons. simpl.
  unfold pretty, pretty_nat, pretty, pretty_N.
  case_decide; [done|]. by apply pretty_N_go_no_quote.
Qed.

Lemma node_line_quotes (node_id : string) (data : node_data) :
  count_char DQUOTE node_id = 0 ->
  count_char DQUOTE (shape data).1 = 0 ->
  count_char DQUOTE (shape data).2 = 0 ->
  count_char DQUOTE (node_line (node_id, data)) = 2.
Proof.
  destruct data as [lbl [shape_start shape_end]]. simpl.
  intros Hid Hstart Hend. unfold node_line; simpl.
  rewrite !count_char_app. simpl.
  rewrite Hid, Hstart, Hend, replace_quote_no_quote. done.
Qed.

(** X13. In the document of every graph that is built, the line of a node
    holds exactly two double quotes, those around its label, whatever the
    label is. *)
Theorem node_lines_are_quoted (depth : nat) (tree_body : list node)
    (ns : list (string * node_data)) (es : list edge) :
  parse_tree depth tree_body = Ok (ns, es) ->
  Forall (fun entry => count_char DQUOTE (node_line entry) = 2) ns.
Proof.
  intros Hparse.
  assert (Hshapes : Forall (fun entry => shape entry.2 ∈ shape_catalog) ns).
  { revert Hparse. unfold parse_tree.
    destruct (build depth tree_body initial_state) as [[u st]|e] eqn:Hbuild;
      [|done].
    intros [= <- <-].
    apply (vocabulary_build depth tree_body initial_state u st); [|done].
    split; apply Forall_nil_2. }
  assert (Hkeys : Forall (fun k => count_char DQUOTE k = 0) (dict_keys ns)).
  { apply parse_tree_inv in Hparse as (last & st & _ & Hwf & _ & _ & Hg).
    unfold finished in Hg. injection Hg as -> _.
    unfold wf_state, dict_keys in *. rewrite map_app, Hwf. simpl.
    apply Forall_app. split; [|apply Forall_singleton, node_name_no_quote].
    apply Forall_fmap, Forall_forall. intros k _. apply node_name_no_quote. }
  unfold dict_keys in Hkeys. rewrite Forall_fmap in Hkeys.
  rewrite Forall_forall in Hkeys, Hshapes. apply Forall_forall.
  intros [node_id data] Hin.
  specialize (Hkeys _ Hin). specialize (Hshapes _ Hin). simpl in Hkeys, Hshapes.
  apply node_line_quotes; [done| |].
  - apply list_elem_of_In in Hshapes. simpl in Hshapes.
    destruct Hshapes as [<-|[<-|[<-|[<-|[<-|[<-|[<-|[]]]]]]]]; done.
  - apply list_elem_of_In in Hshapes. simpl in Hshapes.
    destruct Hshapes as [<-|[<-|[<-|[<-|[<-|[<-|[<-|[]]]]]]]]; done.
Qed.

Lemma node_lines_are_quoted_witness :
  parse_tree 1 [Expr (Ok (String DQUOTE "hi")) None] =
    Ok ([("N0", start_data);
         ("N1", NodeData (String DQUOTE "hi") ("[", "]"));
         ("N2", end_data)],
        [(Some "N0", Some "N1", ""); (Some "N1", Some "N2", "")]) /\
  Forall (fun entry => count_char DQUOTE (node_line entry) = 2)
    [("N0", start_data);
     ("N1", NodeData (String DQUOTE "hi") ("[", "]"));
     ("N2", end_data)].
Proof.
  split; [reflexivity|].
  exact (node_lines_are_quoted 1 [Expr (Ok (String DQUOTE "hi")) None] _ _ eq_refl).
Defined.

(** ** [sync_firebase_user] *)

Section FirestoreProperties.

Variable value : Type.
Variable value_none : value.
Variable error : Type.
Variable firestore : Type.
Variable doc_ref : Type.
Variable document : value -> outcome error doc_ref.
Variable doc_get :
  doc_ref -> firestore -> outcome error (option (list (string * value))) * firestore.
Variable doc_set :
  doc_ref -> list (string * value) -> firestore -> outcome error unit * firestore.

Variable print_sync_error : error -> outcome error unit.

Local Abbreviation sync :=
  (sync_firebase_user value value_none error firestore doc_ref
     document doc_get doc_set print_sync_error).

(** X14. When [sync_firebase_user] raises, the Google record holds an id
    and either the exception is the one [document(uid)] raised for that
    id, before the [try], and the store was not reached; or
    [user_ref.get()] or [user_ref.set()] raised inside the [try] and the
    exception is the one the [print] of the handler raised on what it
    caught.  So the exceptions of [get] and [set] themselves never leave
    the function. *)
Theorem sync_raises_from_document_or_print (db_set : bool)
    (google_user_info : option (list (string * value)))
    (store store' : firestore) (e : error) :
  sync db_set google_user_info store = (Raises e, store') ->
  db_set = true /\
  exists info uid,
    google_user_info = Some info /\ dict_get "id" info = Some uid /\
    ((document uid = Raises e /\ store' = store) \/
     (exists user_ref caught,
        document uid = Returns user_ref /\
        print_sync_error caught = Raises e /\
        (doc_get user_ref store = (Raises caught, store') \/
         exists store1,
           doc_get user_ref store = (Returns None, store1) /\
           doc_set user_ref
             [("name", dict_get_default value value_none "name" info);
              ("email", dict_get_default value value_none "email" info);
              ("uid", uid)] store1 = (Raises caught, store')))).
Proof.
  unfold sync_firebase_user.
  destruct db_set; [|done].
  destruct google_user_info as [[|entry info]|]; [done| |done].
  destruct (dict_get "id" (entry :: info)) as [uid|] eqn:Hid; [|done].
  intros Hsync. split; [done|]. exists (entry :: info), uid.
  split; [done|]. split; [done|]. revert Hsync.
  destruct (document uid) as [user_ref|e'] eqn:Hdoc.
  - destruct (doc_get user_ref store) as [[[user|]|e1] store1] eqn:Hget;
      try done.
    + destruct (doc_set user_ref _ store1) as [[u|e2] store2] eqn:Hset;
        [done|].
      unfold sync_handler.
      destruct (print_sync_error e2) as [u|e3] eqn:Hprint; [done|].
      intros [= <- <-]. right. exists user_ref, e2.
      split; [done|]. split; [done|]. right. by exists store1.
    + unfold sync_handler.
      destruct (print_sync_error e1) as [u|e3] eqn:Hprint; [done|].
      intros [= <- <-]. right. exists user_ref, e1.
      split; [done|]. split; [done|]. by left.
  - intros [= <- <-]. by left.
Qed.

(** What is expected of a key-value store: reading does not change it, and
    a document that was written is the one read next. *)
Hypothesis doc_get_reads : forall user_ref store,
  (doc_get user_ref store).2 = store.
Hypothesis doc_get_after_set : forall user_ref user_data store store',
  doc_set user_ref user_data store = (Returns tt, store') ->
  doc_get user_ref store' = (Returns (Some user_data), store').

(** X15. On such a store, a call whose [get] and [set] do not raise
    returns the stored record of the user, written first when there was
    none, and a second call with the same Google record returns the same
    record and leaves the store as the first call left it. *)
Theorem sync_twice (info : list (string * value)) (uid : value)
    (user_ref : doc_ref) (store : firestore)
    (found : option (list (string * value))) :
  info <> [] ->
  dict_get "id" info = Some uid ->
  document uid = Returns user_ref ->
  (doc_get user_ref store).1 = Returns found ->
  (found = None ->
   (doc_set user_ref
      [("name", dict_get_default value value_none "name" info);
       ("email", dict_get_default value value_none "email" info);
       ("uid", uid)] store).1 = Returns tt) ->
  let first := sync true (Some info) store in
  first.1 =
    Returns (Some (match found with
                   | Some user => user
                   | None =>
                       [("name", dict_get_default value value_none "name" info);
                        ("email", dict_get_default value value_none "email" info);
                        ("uid", uid)]
                   end)) /\
  sync true (Some info) first.2 = first.
Proof using doc_get_reads doc_get_after_set.
  intros Hinfo Hid Hdoc Hget Hset first. subst first.
  unfold sync_firebase_user.
  destruct info as [|entry info]; [done|].
  rewrite Hid, Hdoc.
  pose proof (doc_get_reads user_ref store) as Hreads.
  destruct (doc_get user_ref store) as [got store1] eqn:Hgot.
  simpl in Hget, Hreads. subst got store1.
  destruct found as [user|].
  - simpl. by rewrite Hgot.
  - specialize (Hset eq_refl).
    destruct (doc_set user_ref _ store) as [set store2] eqn:Hwrite.
    simpl in Hset. subst set. simpl.
    by rewrite (doc_get_after_set _ _ _ _ Hwrite).
Qed.

End FirestoreProperties.

(** A store as a dictionary from user ids to documents, which never
    raises. *)
Lemma sync_twice_witness :
  let document := fun uid : string => @Returns unit string uid in
  let doc_get := fun (r : string) (store : list (string * list (string * string))) =>
    (@Returns unit _ (dict_get r store), store) in
  let doc_set := fun (r : string) (d : list (string * string))
                     (store : list (string * list (string * string))) =>
    (@Returns unit unit tt, dict_set r d store) in
  let info := [("id", "42"); ("email", "a@b.c")] in
  let record := [("name", ""); ("email", "a@b.c"); ("uid", "42")] in
  sync_firebase_user string "" unit _ string document doc_get doc_set
    (fun _ => Returns tt)
    true (Some info) [] = (Returns (Some record), [("42", record)]) /\
  sync_firebase_user string "" unit _ string document doc_get doc_set
    (fun _ => Returns tt)
    true (Some info) [("42", record)] = (Returns (Some record), [("42", record)]).
Proof.
  intros document doc_get doc_set info record.
  split; [reflexivity|].
  refine (proj2 (sync_twice string "" unit _ string document doc_get doc_set
                   (fun _ => Returns tt)
                   _ _ info "42" "42" [] None _ eq_refl eq_refl eq_refl _)).
  - reflexivity.
  - intros r d store store' [= <-]. unfold doc_get.
    by rewrite dict_get_set_eq.
  - discriminate.
  - reflexivity.
Defined.

(** A store whose [get] raises, under a [print] that raises too. *)
Lemma sync_raises_from_document_or_print_witness :
  let document := fun uid : string => @Returns string string uid in
  let doc_get := fun (r : string) (store : list (string * list (string * string))) =>
    (@Raises string (option (list (string * string))) "unavailable", store) in
  let doc_set := fun (r : string) (d : list (string * string))
                     (store : list (string * list (string * string))) =>
    (@Returns string unit tt, dict_set r d store) in
  let print_sync_error := fun e : string =>
    @Raises string unit "cannot encode" in
  let empty : list (string * list (string * string)) := [] in
  sync_firebase_user string "" string _ string document doc_get doc_set
    print_sync_error true (Some [("id", "42")]) empty = (Raises "cannot encode", empty) /\
  exists info uid,
    Some [("id", "42")] = Some info /\ dict_get "id" info = Some uid /\
    ((document uid = Raises "cannot encode" /\ empty = empty) \/
     (exists user_ref caught,
        document uid = Returns user_ref /\
        print_sync_error caught = Raises "cannot encode" /\
        (doc_get user_ref empty = (Raises caught, empty) \/
         exists store1,
           doc_get user_ref empty = (Returns None, store1) /\
           doc_set user_ref
             [("name", dict_get_default string "" "name" info);
              ("email", dict_get_default string "" "email" info);
              ("uid", uid)] store1 = (Raises caught, empty)))).
Proof.
  intros document doc_get doc_set print_sync_error empty. split; [reflexivity|].
  exact (proj2 (sync_raises_from_document_or_print string "" string _ string
                  document doc_get doc_set print_sync_error true
                  (Some [("id", "42")]) empty empty "cannot encode" eq_refl)).
Defined.

(** ** Programs without inlined call always build *)













(** ** A function that calls itself *)

Lemma self_call_raises (functions : list (string * function_record))
    (func_id lbl0 : string) (fn : function_record) (rest : list node) :
  is_io_name func_id = false ->
  dict_get func_id functions = Some fn ->
  fn_body fn = Expr (Ok lbl0) (Some func_id) :: rest ->
  forall (depth : nat) (lbl : string) (p ls le : pyid) (st : state),
    visit functions depth (Expr (Ok lbl) (Some func_id)) p ls le st
      = Raise RecursionError.
Proof.
  intros Hio Hfn Hbody depth.
  induction depth as [|depth IH]; intros lbl p ls le st; [done|].
  rewrite (visit_inlined _ _ _ _ fn) by done. rewrite Hbody.
  cbn [for_inlined]. unfold bind at 1. by rewrite IH.
Qed.

(** X17. When the first statement of the program calls a function whose
    own first statement calls that function again, the build raises
    [RecursionError] under every recursion limit, and
    [generate_mermaid_flowchart] runs its handler on it: the document is
    the fallback, after the [print] of the handler. *)
Theorem self_recursion_gives_fallback
    (ast_parse : string -> result (list node))
    (print_error : string -> exn -> result unit) (code : string)
    (tree_body : list node) (func_id lbl lbl0 : string)
    (fn : function_record) (rest_main rest : list node) (depth : nat) :
  ast_parse code = Ok tree_body ->
  main_body_of tree_body = Expr (Ok lbl) (Some func_id) :: rest_main ->
  is_io_name func_id = false ->
  last_def func_id tree_body = Some fn ->
  fn_body fn = Expr (Ok lbl0) (Some func_id) :: rest ->
  parse_tree depth tree_body = Raise RecursionError /\
  generate_mermaid_flowchart ast_parse depth print_error code =
  match print_error code RecursionError with
  | Ok _ => Ok fallback_document
  | Raise e => Raise e
  end.
Proof.
  intros Hparse Hmain Hio Hlast Hbody.
  assert (Hfn : dict_get func_id (collect_functions tree_body []) = Some fn).
  { by rewrite collect_functions_get, Hlast. }
  assert (Hraise : parse_tree depth tree_body = Raise RecursionError).
  { unfold parse_tree, build. unfold bind at 1. rewrite build_body_eq.
    unfold entry_statements. rewrite Hmain. cbn [for_guarded].
    rewrite node_name_truthy. unfold bind at 1.
    by rewrite (self_call_raises _ _ _ _ _ Hio Hfn Hbody). }
  split; [exact Hraise|].
  unfold generate_mermaid_flowchart, parse_code_to_ast.
  by rewrite Hparse, Hraise.
Qed.

Lemma self_recursion_gives_fallback_witness :
  main_body_of self_recursive_program = [Expr (Ok "f()") (Some "f")] /\
  last_def "f" self_recursive_program
    = Some (FunctionRecord [Expr (Ok "f()") (Some "f")] []) /\
  generate_mermaid_flowchart (fun _ => Ok self_recursive_program) 1000
    (fun _ _ => Ok tt) "f()" = Ok fallback_document.
Proof.
  split; [reflexivity|]. split; [reflexivity|].
  exact (proj2 (self_recursion_gives_fallback
                  (fun _ => Ok self_recursive_program) (fun _ _ => Ok tt)
                  "f()"
                  self_recursive_program "f" "f()" "f()"
                  (FunctionRecord [Expr (Ok "f()") (Some "f")] []) [] [] 1000
                  eq_refl eq_refl eq_refl eq_refl eq_refl)).
Defined.

(** ** Start and End *)

Lemma off_start_add_node_bind {B : Type} (lbl : string)
    (shp : string * string) (k : string -> M B) :
  (forall c, 1 <= c -> keeps off_start (k (node_name c))) ->
  keeps off_start (bind (add_node lbl shp) k).
Proof.
  intros Hk st b st' [Hc Hes]. unfold bind at 1. rewrite add_node_eq.
  apply (Hk (node_counter st) Hc). split; simpl; [lia|done].
Qed.

Lemma off_start_edges_append (src tgt : pyid) (lbl : string) :
  tgt <> Some (node_name 0) -> keeps off_start (edges_append (src, tgt, lbl)).
Proof.
  intros Htgt st u st' [Hc Hes] [= <- <-]. split; [done|]. simpl.
  apply Forall_app. split; [done|]. by apply Forall_singleton.
Qed.

Lemma node_name_not_start (c : nat) :
  1 <= c -> Some (node_name c) <> Some (node_name 0).
Proof.
  intros Hc Heq.
  assert (node_name c = node_name 0) as Hc'%node_name_inj by congruence.
  lia.
Qed.

Ltac off_start_steps IH :=
  repeat first
    [ apply keeps_ret
    | apply keeps_unparse
    | apply IH; first [assumption|by apply node_name_not_start]
    | apply off_start_add_node_bind; intros ? ?
    | apply off_start_edges_append;
        first [assumption|by apply node_name_not_start]
    | apply keeps_for_guarded; intros
    | apply keeps_for_inlined; intros
    | apply keeps_bind; [|intros ?]
    | match goal with
      | |- keeps _ (if ?b then _ else _) => destruct b
      | |- keeps _ (match ?x with _ => _ end) => destruct x
      end ].

Lemma off_start_visit (functions : list (string * function_record))
    (depth : nat) (n : node) (p ls le : pyid) :
  ls <> Some (node_name 0) -> le <> Some (node_name 0) ->
  keeps off_start (visit functions depth n p ls le).
Proof.
  revert n p ls le. induction depth as [|depth IH]; intros n p ls le Hls Hle.
  { apply hoare_raise. }
  destruct n; simpl; off_start_steps IH.
Qed.

Lemma off_start_entry (depth : nat) (tree_body : list node) :
  keeps off_start (entry_statements depth tree_body).
Proof.
  unfold entry_statements.
  off_start_steps (fun fs n p =>
    off_start_visit fs depth n p None None
      (ltac:(discriminate) : None <> Some (node_name 0))
      (ltac:(discriminate) : None <> Some (node_name 0))).
  apply hoare_raise.
Qed.

(** X18. In every graph that is built, no edge ends at Start, no edge
    starts at End, and an edge that ends at End is the last edge of the
    list: End has at most one edge. *)
Theorem sentinels_are_endpoints (depth : nat) (tree_body : list node)
    (ns : list (string * node_data)) (es : list edge) :
  parse_tree depth tree_body = Ok (ns, es) ->
  let end_id := node_name (length ns - 1) in
  Forall (fun e : edge => e.1.2 <> Some (node_name 0)) es /\
  Forall (fun e : edge => e.1.1 <> Some end_id) es /\
  (forall (i : nat) (e : edge),
     es !! i = Some e -> e.1.2 = Some end_id -> S i = length es).
Proof.
  intros (last & st & Hbody & Hwf & Hext & Hlast & Hg)%parse_tree_inv end_id.
  unfold finished in Hg. injection Hg as -> ->.
  assert (Hend : end_id = node_name (node_counter st)).
  { subst end_id. unfold wf_state, dict_keys in Hwf.
    apply (f_equal length) in Hwf.
    rewrite length_map, length_map, length_seq in Hwf.
    rewrite length_app, Hwf. simpl. f_equal. lia. }
  rewrite Hend. clear end_id Hend.
  assert (Hbelow : forall x, bounded (node_counter st) x ->
                             x <> Some (node_name (node_counter st))).
  { intros x [->|(k & Hk & ->)]; [done|]. intros Heq.
    assert (node_name k = node_name (node_counter st)) as Hk'%node_name_inj
      by congruence.
    lia. }
  assert (Hedges : Forall (edge_ok (node_counter st)) (edges st)).
  { by destruct Hext as [_ _ (added & -> & Hadded)]. }
  assert (Hstart : off_start st).
  { rewrite build_body_eq in Hbody.
    apply (off_start_entry depth tree_body after_start last st); [|done].
    split; [simpl; lia|apply Forall_nil_2]. }
  destruct Hstart as [Hc Hoff].
  assert (Hsrc : Forall (fun e : edge =>
                   e.1.1 <> Some (node_name (node_counter st))) (edges st)).
  { eapply Forall_impl; [exact Hedges|]. intros e [Hs _]. by apply Hbelow. }
  assert (Htgt : Forall (fun e : edge =>
                   e.1.2 <> Some (node_name (node_counter st))) (edges st)).
  { eapply Forall_impl; [exact Hedges|]. intros e [_ Ht].
    apply Hbelow. by right. }
  destruct (truthy last) eqn:Htruthy.
  - split; [|split].
    + apply Forall_app. split; [done|].
      apply Forall_singleton. simpl. by apply node_name_not_start.
    + apply Forall_app. split; [done|].
      apply Forall_singleton. simpl. by apply Hbelow.
    + intros i e Hi He. rewrite length_app. simpl.
      destruct (decide (i < length (edges st))) as [Hlt|Hge].
      * rewrite lookup_app_l in Hi by done.
        rewrite Forall_forall in Htgt.
        destruct (Htgt e); [|done]. apply list_elem_of_lookup. by exists i.
      * apply lookup_lt_Some in Hi. rewrite length_app in Hi. simpl in Hi. lia.
  - split; [done|]. split; [done|].
    intros i e Hi He. rewrite Forall_forall in Htgt.
    destruct (Htgt e); [|done]. apply list_elem_of_lookup. by exists i.
Qed.

Lemma sentinels_are_endpoints_witness :
  parse_tree 2 if_else_program = Ok (if_else_nodes, if_else_edges) /\
  Forall (fun e : edge => e.1.2 <> Some "N0") if_else_edges /\
  Forall (fun e : edge => e.1.1 <> Some "N5") if_else_edges.
Proof.
  split; [reflexivity|].
  destruct (sentinels_are_endpoints 2 if_else_program if_else_nodes
              if_else_edges eq_refl) as (Hstart & Hend & _).
  exact (conj Hstart Hend).
Defined.

(** ** Continue in a loop *)

(** X19. A loop whose header text [ast.unparse] returns and whose body
    reaches a continue after statements that fall through to [cur] ends with the edge from [cur] to its own header,
    labelled continue, and the edge from the header to its exit, labelled
    End Loop: the statements after the continue are skipped and the loop
    has no back edge labelled Loop. *)
Theorem loop_continue (functions : list (string * function_record))
    (depth : nat) (loop : node) (lbl : string) (pre post : list node)
    (p ls le cur : pyid) (st st1 : state) :
  is_loop loop = true -> loop_label loop = Ok lbl ->
  loop_body loop = pre ++ Continue :: post ->
  let header := node_name (node_counter st) in
  let exit := node_name (S (node_counter st)) in
  for_guarded
    (fun c cur => visit functions (S depth) c cur (Some header) (Some exit))
    pre (Some header) (loop_entered lbl p st) = Ok (cur, st1) ->
  truthy cur = true ->
  visit functions (S (S depth)) loop p ls le st =
  Ok (Some exit,
      State (nodes st1)
            (edges st1 ++ [(cur, Some header, "continue");
                           (Some header, Some exit, "End Loop")])
            (node_counter st1)).
Proof.
  intros Hloop Hlbl Hbody header exit Hpre Hcur. subst header exit.
  rewrite (visit_loop _ _ _ lbl), Hbody, for_guarded_app by done.
  unfold bind at 1. rewrite Hpre.
  cbn [for_guarded]. unfold bind at 1. rewrite Hcur, visit_Continue.
  rewrite for_guarded_falsy by done. rewrite node_name_truthy.
  unfold loop_closed. cbn [truthy nodes edges node_counter app].
  by rewrite <- app_assoc.
Qed.

Lemma loop_continue_witness :
  is_loop (While (Ok "x < 10") [Continue; Assign (Ok "x = 1")] []) = true /\
  visit [] 2 (While (Ok "x < 10") [Continue; Assign (Ok "x = 1")] []) (Some "N0")
        None None after_start =
  Ok (Some "N2",
      State (nodes state_in_loop)
            [(Some "N0", Some "N1", "");
             (Some "N1", Some "N1", "continue");
             (Some "N1", Some "N2", "End Loop")]
            3).
Proof.
  split; [reflexivity|].
  exact (loop_continue [] 0
           (While (Ok "x < 10") [Continue; Assign (Ok "x = 1")] [])
           "While x < 10" [] [Assign (Ok "x = 1")] (Some "N0") None None
           (Some "N1") after_start state_in_loop eq_refl eq_refl eq_refl
           eq_refl eq_refl).
Defined.

(** ** A conditional with an else clause *)

(** X20. A conditional whose test [ast.unparse] returns, whose two
    branches are not empty and do not both terminate, gets one merge node
    and exactly one edge into it for each branch that falls through,
    labelled Yes for the true branch and No for the false branch; the edge
    starts where the branch ended, which is the decision node itself when
    the branch drew no node (as [pass] does); a branch that terminated
    gets none, and the two edges the code adds for an empty branch are not
    added. *)
Theorem conditional_with_else_merges
    (functions : list (string * function_record)) (depth : nat)
    (test : string) (body orelse : list node) (p ls le : pyid)
    (st st1 st2 : state) (true_end false_end : pyid) :
  body <> [] -> orelse <> [] ->
  let cond_id := node_name (node_counter st) in
  let merge_id := node_name (node_counter st2) in
  for_guarded (fun c cur => visit functions depth c cur ls le)
    body (Some cond_id) (with_node ("if " +:+ test) ("{", "}") p st)
    = Ok (true_end, st1) ->
  for_guarded (fun c cur => visit functions depth c cur ls le)
    orelse (Some cond_id) st1 = Ok (false_end, st2) ->
  truthy true_end || truthy false_end = true ->
  visit functions (S depth) (If (Ok test) body orelse) p ls le st =
  Ok (Some merge_id,
      State (dict_set merge_id (NodeData " " ("((", "))")) (nodes st2))
            (edges st2 ++
             (if truthy true_end
              then [(true_end, Some merge_id, "Yes")] else []) ++
             (if truthy false_end
              then [(false_end, Some merge_id, "No")] else []))
            (S (node_counter st2))).
Proof.
  intros Hbody Horelse cond_id merge_id Htrue Hfalse Hsome.
  subst cond_id merge_id.
  rewrite visit_If, Htrue, Hfalse. unfold merge_branches.
  destruct body; [done|]. destruct orelse; [done|].
  destruct (truthy true_end), (truthy false_end); try discriminate Hsome;
    unfold add_node, get_node_id, edges_append, bind, ret; simpl;
    by rewrite <- ?app_assoc, ?app_nil_r.
Qed.

Lemma conditional_with_else_merges_witness :
  visit [] 2 (If (Ok "c") [Return (Ok "return 1")] [Assign (Ok "y = 2")])
        (Some "N0") None None after_start =
  Ok (Some "N4",
      State [("N0", start_data);
             ("N1", NodeData "if c" ("{", "}"));
             ("N2", NodeData "return 1" ("(", ")"));
             ("N3", NodeData "y = 2" ("[/", "/]"));
             ("N4", NodeData " " ("((", "))"))]
            [(Some "N0", Some "N1", ""); (Some "N1", Some "N2", "");
             (Some "N1", Some "N3", ""); (Some "N3", Some "N4", "No")]
            5).
Proof.
  refine (conditional_with_else_merges [] 1 "c" [Return (Ok "return 1")]
            [Assign (Ok "y = 2")] (Some "N0") None None after_start state_if_true
            (State [("N0", start_data);
                    ("N1", NodeData "if c" ("{", "}"));
                    ("N2", NodeData "return 1" ("(", ")"));
                    ("N3", NodeData "y = 2" ("[/", "/]"))]
                   [(Some "N0", Some "N1", ""); (Some "N1", Some "N2", "");
                    (Some "N1", Some "N3", "")] 4)
            None (Some "N3") _ _ eq_refl eq_refl eq_refl); discriminate.
Defined.

(** [if c: pass / else: y = 2]: the true branch draws nothing and its
    edge to the merge node starts at the decision node [N1]. *)
Example conditional_with_pass_branch :
  visit [] 2 (If (Ok "c") [Other []] [Assign (Ok "y = 2")])
        (Some "N0") None None after_start =
  Ok (Some "N3",
      State [("N0", start_data);
             ("N1", NodeData "if c" ("{", "}"));
             ("N2", NodeData "y = 2" ("[/", "/]"));
             ("N3", NodeData " " ("((", "))"))]
            [(Some "N0", Some "N1", ""); (Some "N1", Some "N2", "");
             (Some "N1", Some "N3", "Yes"); (Some "N2", Some "N3", "No")]
            4).
Proof. reflexivity. Qed.

(** ** A function definition that is not at top level *)


